(** * fintech-application: the account ledger of [app.js] and its token gate

    A shallow embedding of the Express application in [src/app.js]:

    - JavaScript numbers are IEEE-754 binary64 values, modelled by Rocq's
      primitive [float] (the same format, with the same NaN, infinities and
      signed zeros); [+], [-], [<] and [<=] on amounts and balances are the
      primitive operations.
    - [accounts] (an object used as a map from account id to account record)
      is a [gmap Z Account]; [nextAccountId] is a [Z].  The counter only ever
      holds 1, 2, 3, ... and every increment is exact in binary64 below 2^53,
      a value that needs 2^53 account creations to reach; integers stand for
      these counter values and for the results of [parseInt].
    - [jwt.sign], [jwt.verify] (package jsonwebtoken) and [uuidv4] (package
      uuid) are external: the first two are parameters of the server section,
      the value returned by [uuidv4()] is an argument of the handler that
      calls it.  The clock read by jsonwebtoken is an explicit [now], in
      seconds.
    - A handler is a function from the store (and the parsed request) to the
      new store and the response it sends.
    - A string is the sequence of its UTF-8 bytes. *)

From Stdlib Require Import ZArith String Ascii List Lia Bool.
From Stdlib Require Import Floats Zpower.
From Stdlib Require Import DecimalString DecimalZ.
From stdpp Require Import base option gmap.

Open Scope Z_scope.

#[local] Set Warnings "-register-all".

(** ** JavaScript values, as [express.json()] and the router deliver them *)

Module JS.

(** A parsed JSON value, or [undefined] for a property that is absent. *)
Inductive Value : Type :=
| Undefined
| Null
| Boolean (b : bool)
| Number (x : float)
| Str (s : string)
| Array (elems : list Value)
| Object (props : list (string * Value)).

Inductive TypeTag : Type :=
| TUndefined | TObject | TBoolean | TNumber | TString.

(** [typeof v] *)
Definition typeof (v : Value) : TypeTag :=
  match v with
  | Undefined => TUndefined
  | Null => TObject
  | Boolean _ => TBoolean
  | Number _ => TNumber
  | Str _ => TString
  | Array _ => TObject
  | Object _ => TObject
  end.

Definition TypeTag_eqb (a b : TypeTag) : bool :=
  match a, b with
  | TUndefined, TUndefined | TObject, TObject | TBoolean, TBoolean
  | TNumber, TNumber | TString, TString => true
  | _, _ => false
  end.

(** [a === b] on the two strings the login handler compares; a value that
    is not a string is never [===] to a string. *)
Definition strict_eq_string (v : Value) (s : string) : bool :=
  match v with
  | Str t => String.eqb t s
  | _ => false
  end.

(** [x > y] on numbers is [y < x]. *)
Definition gtb (x y : float) : bool := PrimFloat.ltb y x.

(** *** [parseInt(s, 10)]

    A string holds the bytes of the text in UTF-8.  Leading white space is
    skipped, an optional sign is read, then the longest run of decimal
    digits; [None] stands for [NaN] (no digit).

    White space is every character of the language's WhiteSpace and
    LineTerminator productions: TAB, LF, VT, FF, CR, SP, U+00A0, U+1680,
    U+2000 to U+200A, U+2028, U+2029, U+202F, U+205F, U+3000 and U+FEFF,
    each recognised by its UTF-8 bytes. *)

Definition code (c : ascii) : nat := nat_of_ascii c.

(** White space of one byte: TAB, LF, VT, FF, CR, SP; and the byte 160,
    U+00A0 written as a single byte.  No UTF-8 text has the byte 160 where
    a character starts, so on UTF-8 text only the six ASCII characters are
    met here. *)
Definition space1 (a : ascii) : bool :=
  let n := code a in
  (Nat.eqb n 9 || Nat.eqb n 10 || Nat.eqb n 11 || Nat.eqb n 12
   || Nat.eqb n 13 || Nat.eqb n 32 || Nat.eqb n 160)%bool.

(** White space of two bytes: U+00A0 is C2 A0. *)
Definition space2 (a b : ascii) : bool :=
  (Nat.eqb (code a) 194 && Nat.eqb (code b) 160)%bool.

(** White space of three bytes: U+1680 is E1 9A 80; U+2000 to U+200A are
    E2 80 80 to E2 80 8A; U+2028, U+2029 and U+202F are E2 80 A8, E2 80 A9
    and E2 80 AF; U+205F is E2 81 9F; U+3000 is E3 80 80; U+FEFF is
    EF BB BF. *)
Definition space3 (a b c : ascii) : bool :=
  let x := code a in
  let y := code b in
  let z := code c in
  (Nat.eqb x 225 && Nat.eqb y 154 && Nat.eqb z 128
   || Nat.eqb x 226 && Nat.eqb y 128
      && (Nat.leb 128 z && Nat.leb z 138
          || Nat.eqb z 168 || Nat.eqb z 169 || Nat.eqb z 175)
   || Nat.eqb x 226 && Nat.eqb y 129 && Nat.eqb z 159
   || Nat.eqb x 227 && Nat.eqb y 128 && Nat.eqb z 128
   || Nat.eqb x 239 && Nat.eqb y 187 && Nat.eqb z 191)%bool.

(** The bytes that start a white-space character of two or three bytes. *)
Definition space_lead (a : ascii) : bool :=
  let n := code a in
  (Nat.eqb n 194 || Nat.eqb n 225 || Nat.eqb n 226 || Nat.eqb n 227
   || Nat.eqb n 239)%bool.

Definition digit_of (c : ascii) : option Z :=
  let n := Z.of_nat (nat_of_ascii c) in
  if (48 <=? n) && (n <=? 57) then Some (n - 48) else None.

Fixpoint skip_space (s : string) : string :=
  match s with
  | String a r1 =>
      if space1 a then skip_space r1
      else if negb (space_lead a) then s
      else
        match r1 with
        | String b r2 =>
            if space2 a b then skip_space r2
            else
              match r2 with
              | String c r3 => if space3 a b c then skip_space r3 else s
              | EmptyString => s
              end
        | EmptyString => s
        end
  | EmptyString => s
  end.

(** The digits read so far are [acc]; [seen] tells whether there was one. *)
Fixpoint read_digits (s : string) (seen : bool) (acc : Z) : option Z :=
  match s with
  | String c rest =>
      match digit_of c with
      | Some d => read_digits rest true (10 * acc + d)
      | None => if seen then Some acc else None
      end
  | EmptyString => if seen then Some acc else None
  end.

Definition parseInt (s : string) : option Z :=
  match skip_space s with
  | String "-" rest => option_map Z.opp (read_digits rest false 0)
  | String "+" rest => read_digits rest false 0
  | t => read_digits t false 0
  end.

(** *** [s.split(' ')] *)

Fixpoint split_space (s : string) : list string :=
  match s with
  | EmptyString => [EmptyString]
  | String c rest =>
      if Ascii.eqb c " " then EmptyString :: split_space rest
      else match split_space rest with
           | w :: ws => String c w :: ws
           | [] => [String c EmptyString]
           end
  end.

End JS.

(** ** The in-memory store: [accounts] and [nextAccountId] *)

Record Account : Type := mkAccount { id : Z; balance : float }.

Record Store : Type := mkStore {
  accounts : gmap Z Account;
  nextAccountId : Z
}.

(** [const accounts = {}; let nextAccountId = 1;] *)
Definition initial_store : Store :=
  {| accounts := ∅; nextAccountId := 1 |}.

(** [accounts[accountId]], where [accountId] is the result of [parseInt]:
    the key [NaN] names no account. *)
Definition account_at (st : Store) (accountId : option Z) : option Account :=
  match accountId with
  | Some k => accounts st !! k
  | None => None
  end.

(** ** Responses: [res.status(c).json(b)] *)

Inductive Body : Type :=
| ErrorBody (error : string)
| TokenBody (token : string)
| AccountIdBody (account_id : Z)
| TransactionIdBody (transaction_id : string)
| BalanceBody (balance : float).

Record Response : Type := mkResponse { status : Z; body : Body }.

Definition json_error (code : Z) (msg : string) : Response :=
  {| status := code; body := ErrorBody msg |}.

(** The failure kinds of the specification, read off a response. *)
Inductive Failure : Type :=
| InvalidCredential
| MissingCredential
| AccountNotFound
| InvalidAmount
| InsufficientFunds.

Definition failure_of (r : Response) : option Failure :=
  match body r with
  | ErrorBody msg =>
      if (status r =? 401) && String.eqb msg "Invalid credentials" then Some InvalidCredential
      else if (status r =? 403) && String.eqb msg "Token is not valid" then Some InvalidCredential
      else if (status r =? 403) && String.eqb msg "No token provided" then Some MissingCredential
      else if (status r =? 404) && String.eqb msg "Account not found" then Some AccountNotFound
      else if (status r =? 400) && String.eqb msg "Invalid deposit amount" then Some InvalidAmount
      else if (status r =? 400) && String.eqb msg "Invalid withdrawal amount" then Some InvalidAmount
      else if (status r =? 400) && String.eqb msg "Insufficient funds" then Some InsufficientFunds
      else None
  | _ => None
  end.

(** ** The route handlers (the code that runs once [verifyToken] calls [next]) *)

(** [typeof amount !== 'number' || amount <= 0] *)
Definition amount_rejected (amount : JS.Value) : bool :=
  negb (JS.TypeTag_eqb (JS.typeof amount) JS.TNumber)
  || match amount with
     | JS.Number x => PrimFloat.leb x 0
     | _ => false
     end.

(** The number held by an [amount] that passed the check above. *)
Definition number_of (amount : JS.Value) : float :=
  match amount with
  | JS.Number x => x
  | _ => nan
  end.

(** The store once the record [acct], stored under [k], has its [balance]
    set to [b]: the record is updated in place, and no other key holds it. *)
Definition set_balance (st : Store) (k : Z) (acct : Account) (b : float) : Store :=
  {| accounts := <[k := {| id := id acct; balance := b |}]> (accounts st);
     nextAccountId := nextAccountId st |}.

(** [accounts[accountId].balance = b], for the record [acct] that
    [accounts[accountId]] was found to be. *)
Definition assign_balance (st : Store) (accountId : option Z) (acct : Account)
    (b : float) : Store :=
  match accountId with
  | Some k => set_balance st k acct b
  | None => st
  end.

(** [app.post('/accounts', ...)] *)
Definition createAccount (st : Store) : Store * Response :=
  let account := {| id := nextAccountId st; balance := 0 |} in
  ({| accounts := <[nextAccountId st := account]> (accounts st);
      nextAccountId := nextAccountId st + 1 |},
   {| status := 201; body := AccountIdBody (id account) |}).

(** [app.post('/accounts/:id/deposit', ...)]; [uuid] is what [uuidv4()]
    returns in this call. *)
Definition deposit (st : Store) (id_param : string) (amount : JS.Value)
    (uuid : string) : Store * Response :=
  let accountId := JS.parseInt id_param in
  match account_at st accountId with
  | None => (st, json_error 404 "Account not found")
  | Some acct =>
      if amount_rejected amount then
        (st, json_error 400 "Invalid deposit amount")
      else
        let transactionId := uuid in
        (assign_balance st accountId acct
           (PrimFloat.add (balance acct) (number_of amount)),
         {| status := 200; body := TransactionIdBody transactionId |})
  end.

(** [app.post('/accounts/:id/withdraw', ...)] *)
Definition withdraw (st : Store) (id_param : string) (amount : JS.Value)
    (uuid : string) : Store * Response :=
  let accountId := JS.parseInt id_param in
  match account_at st accountId with
  | None => (st, json_error 404 "Account not found")
  | Some acct =>
      if amount_rejected amount then
        (st, json_error 400 "Invalid withdrawal amount")
      else if PrimFloat.ltb (balance acct) (number_of amount) then
        (st, json_error 400 "Insufficient funds")
      else
        let transactionId := uuid in
        (assign_balance st accountId acct
           (PrimFloat.sub (balance acct) (number_of amount)),
         {| status := 200; body := TransactionIdBody transactionId |})
  end.

(** [app.get('/accounts/:id/balance', ...)] *)
Definition getBalance (st : Store) (id_param : string) : Store * Response :=
  let accountId := JS.parseInt id_param in
  match account_at st accountId with
  | Some acct => (st, {| status := 200; body := BalanceBody (balance acct) |})
  | None => (st, json_error 404 "Account not found")
  end.

(** ** Sequences of calls on the ledger *)

Inductive Call : Type :=
| CreateAccount
| Deposit (id_param : string) (amount : JS.Value) (uuid : string)
| Withdraw (id_param : string) (amount : JS.Value) (uuid : string)
| GetBalance (id_param : string).

Definition call (st : Store) (c : Call) : Store * Response :=
  match c with
  | CreateAccount => createAccount st
  | Deposit id_param amount uuid => deposit st id_param amount uuid
  | Withdraw id_param amount uuid => withdraw st id_param amount uuid
  | GetBalance id_param => getBalance st id_param
  end.

(** The store after the calls of [cs], made one after the other. *)
Fixpoint run (st : Store) (cs : list Call) : Store :=
  match cs with
  | [] => st
  | c :: rest => run (call st c).1 rest
  end.

(** The number of accounts a sequence of calls creates. *)
Fixpoint creations (cs : list Call) : Z :=
  match cs with
  | [] => 0
  | CreateAccount :: rest => 1 + creations rest
  | _ :: rest => creations rest
  end.

(** [Number.isFinite(amount)] for the amount a call carries; a call without
    a numeric amount has nothing to check. *)
Definition finite_amount (c : Call) : bool :=
  match c with
  | Deposit _ (JS.Number x) _ | Withdraw _ (JS.Number x) _ => is_finite x
  | _ => true
  end.

(** Readings of "a positive number" for an amount. *)
Definition positive_number (amount : JS.Value) : bool :=
  match amount with
  | JS.Number x => PrimFloat.ltb 0 x
  | _ => false
  end.

Definition positive_finite_number (amount : JS.Value) : bool :=
  match amount with
  | JS.Number x => PrimFloat.ltb 0 x && is_finite x
  | _ => false
  end.

Definition is_NaN (amount : JS.Value) : bool :=
  match amount with
  | JS.Number x => is_nan x
  | _ => false
  end.

(** ** Conditions on the balances of a store *)

(** [b < 0] is false. *)
Definition never_negative (b : float) : bool := negb (PrimFloat.ltb b 0).

(** [0 <= b]. *)
Definition at_least_zero (b : float) : bool := PrimFloat.leb 0 b.

(** Every account of the store has a balance that passes [ok]. *)
Definition balances (ok : float -> bool) (st : Store) : Prop :=
  forall k acct, accounts st !! k = Some acct -> ok (balance acct) = true.

(** Between [st] and [st'], nothing but the balance of account [k] may
    differ: the other keys hold what they held, the set of ids and the
    next id are the same, and account [k] keeps its [id] field. *)
Definition only_balance_of (k : Z) (st st' : Store) : Prop :=
  (forall k', k' <> k -> accounts st' !! k' = accounts st !! k')
  /\ dom (accounts st') = dom (accounts st)
  /\ nextAccountId st' = nextAccountId st
  /\ id <$> accounts st' !! k = id <$> accounts st !! k.

(** ** The token gate and the routes *)

(** The payload [{ username, role }] handed to [jwt.sign], and what
    [jwt.verify] decodes: the payload with its issue and expiry times. *)
Record Claims : Type := mkClaims { username : JS.Value; role : string }.

Record Decoded : Type := mkDecoded { claims : Claims; iat : Z; exp : Z }.

Definition adminUsername : string := "admin".
Definition adminPassword : string := "admin".
Definition jwtSecret : string := "56025E0C0FA4CBC84F060DAD39D8116B7B3161FC".
Definition tokenExpiry : string := "1h".

(** The number of seconds jsonwebtoken reads in ["1h"]. *)
Definition token_lifetime : Z := 3600.

Definition admin_claims : Claims :=
  {| username := JS.Str adminUsername; role := "admin" |}.

(** What [verifyToken] does with a request: it sends a response itself, or
    it sets [req.admin] and calls [next()]. *)
Inductive Gate : Type :=
| Sent (r : Response)
| Next (admin : Decoded).

Inductive Request : Type :=
| PostLogin (username password : JS.Value)
| PostAccounts (authorization : option string)
| PostDeposit (authorization : option string) (id_param : string) (amount : JS.Value)
| PostWithdraw (authorization : option string) (id_param : string) (amount : JS.Value)
| GetAccountBalance (authorization : option string) (id_param : string).

Fixpoint has_space (s : string) : bool :=
  match s with
  | EmptyString => false
  | String c rest => Ascii.eqb c " " || has_space rest
  end.

Section Server.

(** [jwt.sign(payload, secret, { expiresIn })] at clock [now], and
    [jwt.verify(token, secret, callback)] at clock [now]: [None] is the
    callback's [err], [Some decoded] its [decoded]. *)
Variable jwt_sign : Claims -> string -> string -> Z -> string.
Variable jwt_verify : option string -> string -> Z -> option Decoded.

(** [app.post('/login', ...)] *)
Definition login (username password : JS.Value) (now : Z) : Response :=
  if JS.strict_eq_string username adminUsername
     && JS.strict_eq_string password adminPassword
  then
    let token :=
      jwt_sign {| username := username; role := "admin" |} jwtSecret tokenExpiry now in
    {| status := 200; body := TokenBody token |}
  else json_error 401 "Invalid credentials".

(** [bearerHeader.split(' ')[1]]: [None] is [undefined]. *)
Definition bearer_token (bearerHeader : string) : option string :=
  JS.split_space bearerHeader !! 1%nat.

(** [verifyToken(req, res, next)], with [authorization] the value of
    [req.headers['authorization']]. *)
Definition verifyToken (authorization : option string) (now : Z) : Gate :=
  match authorization with
  | Some bearerHeader =>
      let token := bearer_token bearerHeader in
      match jwt_verify token jwtSecret now with
      | None => Sent (json_error 403 "Token is not valid")
      | Some decoded => Next decoded
      end
  | None => Sent (json_error 403 "No token provided")
  end.

(** A route registered as [app.METHOD(path, verifyToken, handler)]. *)
Definition protected (authorization : option string) (now : Z) (st : Store)
    (handler : Store -> Store * Response) : Store * Response :=
  match verifyToken authorization now with
  | Next _ => handler st
  | Sent r => (st, r)
  end.

(** One request served at clock [now]; [uuid] is the next value of
    [uuidv4()]. *)
Definition serve (st : Store) (req : Request) (now : Z) (uuid : string)
    : Store * Response :=
  match req with
  | PostLogin username password => (st, login username password now)
  | PostAccounts authorization =>
      protected authorization now st createAccount
  | PostDeposit authorization id_param amount =>
      protected authorization now st (fun s => deposit s id_param amount uuid)
  | PostWithdraw authorization id_param amount =>
      protected authorization now st (fun s => withdraw s id_param amount uuid)
  | GetAccountBalance authorization id_param =>
      protected authorization now st (fun s => getBalance s id_param)
  end.

End Server.



(** The failure a gate result stands for, if it is one. *)
Definition gate_failure (g : Gate) : option Failure :=
  match g with
  | Sent r => failure_of r
  | Next _ => None
  end.

(** On the header [h] the gate never fails with MissingCredential,
    whatever [jwt.verify] answers; and when [h] has no second word and
    [jwt.verify] refuses a missing token, the gate fails with
    InvalidCredential. *)
Definition never_missing_credential (h : string) : Prop :=
  forall (jwt_verify : option string -> string -> Z -> option Decoded) (now : Z),
    gate_failure (verifyToken jwt_verify (Some h) now) <> Some MissingCredential
    /\ (bearer_token h = None -> jwt_verify None jwtSecret now = None ->
        gate_failure (verifyToken jwt_verify (Some h) now) = Some InvalidCredential).

(** ** A small instance of the signing interface

    The token is the issue time written in unary; it shows that the contract
    assumed of jsonwebtoken below can be met. *)

Module UnaryJwt.

Fixpoint unary (n : nat) : string :=
  match n with
  | O => EmptyString
  | S k => String "x" (unary k)
  end.

Fixpoint all_x (s : string) : bool :=
  match s with
  | EmptyString => true
  | String c rest => Ascii.eqb c "x" && all_x rest
  end.

Definition sign (c : Claims) (secret expiresIn : string) (now : Z) : string :=
  unary (Z.to_nat now).

Definition verify (token : option string) (secret : string) (now : Z)
    : option Decoded :=
  match token with
  | Some s =>
      let issued := Z.of_nat (String.length s) in
      if all_x s && (now <? issued + token_lifetime)
      then Some {| claims := admin_claims; iat := issued;
                   exp := issued + token_lifetime |}
      else None
  | None => None
  end.

End UnaryJwt.

(** ** Signs of binary64 values *)

Module Binary64.

(** [0 <= s] *)
Definition nonneg (s : spec_float) : bool :=
  match s with
  | S754_zero _ => true
  | S754_infinity sg => negb sg
  | S754_finite sg _ _ => negb sg
  | S754_nan => false
  end.

(** [s < 0] is false *)
Definition not_negative (s : spec_float) : bool :=
  match s with
  | S754_nan => true
  | _ => nonneg s
  end.

(** [s <= 0] is false *)
Definition above_zero (s : spec_float) : bool :=
  match s with
  | S754_nan => true
  | S754_infinity sg => negb sg
  | S754_finite sg _ _ => negb sg
  | S754_zero _ => false
  end.

End Binary64.

(** ** Paths and runs of requests *)

(** [`${accountId}`] for an integer id: its decimal digits, as the tests
    build the path of a request from the [account_id] of a response
    (JavaScript writes an integer so below 10^21, far above any id). *)
Definition id_string (n : Z) : string := NilZero.string_of_int (Z.to_int n).

(** The [Authorization] header of a request to a route behind the gate. *)
Definition authorization_of (req : Request) : option string :=
  match req with
  | PostLogin _ _ => None
  | PostAccounts authorization
  | PostDeposit authorization _ _
  | PostWithdraw authorization _ _
  | GetAccountBalance authorization _ => authorization
  end.

(** A request as it arrives: with the clock at that moment and the value
    [uuidv4()] would return. *)
Record Arrival : Type := mkArrival {
  request : Request;
  clock : Z;
  next_uuid : string
}.

Section ServerRuns.

Variable jwt_sign : Claims -> string -> string -> Z -> string.
Variable jwt_verify : option string -> string -> Z -> option Decoded.

(** The store after the server has answered the arrivals in turn. *)
Fixpoint serve_all (st : Store) (arrivals : list Arrival) : Store :=
  match arrivals with
  | [] => st
  | a :: rest =>
      serve_all
        (serve jwt_sign jwt_verify st (request a) (clock a) (next_uuid a)).1 rest
  end.

End ServerRuns.

(** The keys of the store are the ids allocated so far, [1] up to
    [nextAccountId - 1], and the record under key [k] has [id] [k]. *)
Definition well_numbered (st : Store) : Prop :=
  1 <= nextAccountId st
  /\ forall k,
       (is_Some (accounts st !! k) <-> 1 <= k < nextAccountId st)
       /\ (forall acct, accounts st !! k = Some acct -> id acct = k).

(** The account a call works on: the key [parseInt] reads in its path
    ([None] for a creation, which has no path id, and for an id that reads
    as [NaN]). *)
Definition target (c : Call) : option Z :=
  match c with
  | CreateAccount => None
  | Deposit id_param _ _ | Withdraw id_param _ _ | GetBalance id_param =>
      JS.parseInt id_param
  end.

(** The calls that work on an existing account. *)
Definition on_account (c : Call) : bool :=
  match c with
  | CreateAccount => false
  | _ => true
  end.

(** * Facts *)

(** ** The JavaScript helpers on concrete inputs *)

Example parseInt_examples :
  JS.parseInt "1" = Some 1
  /\ JS.parseInt "  42abc" = Some 42
  /\ JS.parseInt "-7" = Some (-7)
  /\ JS.parseInt "+5" = Some 5
  /\ JS.parseInt "1.9" = Some 1
  /\ JS.parseInt "abc" = None
  /\ JS.parseInt "-" = None
  /\ JS.parseInt EmptyString = None.
Proof. repeat split; reflexivity. Qed.

(** White space beyond ASCII before the digits: U+00A0 (as C2 A0 and as the
    single byte A0), U+2003 (E2 80 83), U+FEFF (EF BB BF), U+2028
    (E2 80 A8), U+3000 (E3 80 80) and U+1680 (E1 9A 80) are skipped;
    U+180E (E1 A0 8E) and U+00E9 (C3 A9) are not white space. *)
Example parseInt_white_space :
  let b := fun n : Z => ascii_of_nat (Z.to_nat n) in
  JS.parseInt (String (b 194) (String (b 160) "1")) = Some 1
  /\ JS.parseInt (String (b 160) "1") = Some 1
  /\ JS.parseInt (String (b 226) (String (b 128) (String (b 131) "12"))) = Some 12
  /\ JS.parseInt (String (b 239) (String (b 187) (String (b 191) "-3"))) = Some (-3)
  /\ JS.parseInt (String (b 226) (String (b 128) (String (b 168) "4"))) = Some 4
  /\ JS.parseInt (String (b 227) (String (b 128) (String (b 128) "5"))) = Some 5
  /\ JS.parseInt (String (b 225) (String (b 154) (String (b 128) "6"))) = Some 6
  /\ JS.parseInt
       (String " " (String (b 194) (String (b 160) (String (b 9) "7")))) = Some 7
  /\ JS.parseInt (String (b 225) (String (b 160) (String (b 142) "8"))) = None
  /\ JS.parseInt (String (b 195) (String (b 169) "9")) = None.
Proof. repeat split; reflexivity. Qed.

Example split_space_examples :
  JS.split_space "Bearer abc.def" = ["Bearer"; "abc.def"]%string
  /\ JS.split_space "Bearer" = ["Bearer"]%string
  /\ JS.split_space "Bearer " = ["Bearer"%string; EmptyString]
  /\ JS.split_space EmptyString = [EmptyString].
Proof. repeat split; reflexivity. Qed.

Example typeof_examples :
  JS.typeof (JS.Number nan) = JS.TNumber
  /\ JS.typeof (JS.Str "abc") = JS.TString
  /\ JS.typeof JS.Null = JS.TObject
  /\ JS.typeof JS.Undefined = JS.TUndefined.
Proof. repeat split; reflexivity. Qed.

(** ** Rounding keeps the sign

    The sum and the difference of two binary64 values are computed on
    aligned integer mantissas and then rounded; rounding a non-negative
    integer never yields a negative value. *)

Module Binary64Facts.
Import Binary64.

Lemma nonneg_leb s : SFleb (S754_zero false) s = nonneg s.
Proof. destruct s as [[]|[]| |[] m e]; reflexivity. Qed.

Lemma iter_pos_preserves {A} (P : A -> Prop) (f : A -> A) :
  (forall x, P x -> P (f x)) -> forall n x, P x -> P (SpecFloat.iter_pos f n x).
Proof.
  intros Hf. induction n as [n IH|n IH|]; intros x Hx; simpl; auto.
Qed.

Lemma shr_1_nonneg mrs : 0 <= shr_m mrs -> 0 <= shr_m (shr_1 mrs).
Proof.
  destruct mrs as [m r s]. simpl.
  destruct m as [|[p|p|]|[p|p|]]; simpl; lia.
Qed.

Lemma shr_nonneg mrs e n : 0 <= shr_m mrs -> 0 <= shr_m (fst (shr mrs e n)).
Proof.
  intros H. destruct n as [|p|p]; simpl; auto.
  apply (iter_pos_preserves (fun r => 0 <= shr_m r)); auto using shr_1_nonneg.
Qed.

Lemma shr_fexp_nonneg m e l :
  0 <= m -> 0 <= shr_m (fst (shr_fexp prec emax m e l)).
Proof.
  intros H. unfold shr_fexp. apply shr_nonneg.
  destruct l as [|[]]; simpl; assumption.
Qed.

Lemma round_nearest_even_nonneg m l : 0 <= m -> 0 <= round_nearest_even m l.
Proof.
  intros H. destruct l as [|[]]; simpl; try lia.
  destruct (Z.even m); lia.
Qed.

Lemma binary_round_aux_nonneg m e l :
  0 <= m -> nonneg (binary_round_aux prec emax false m e l) = true.
Proof.
  intros H. unfold binary_round_aux.
  pose proof (shr_fexp_nonneg m e l H) as H1.
  destruct (shr_fexp prec emax m e l) as [mrs' e']. simpl in H1.
  pose proof (shr_fexp_nonneg
                (round_nearest_even (shr_m mrs') (loc_of_shr_record mrs'))
                e' loc_Exact
                (round_nearest_even_nonneg _ _ H1)) as H2.
  destruct (shr_fexp prec emax _ e' loc_Exact) as [mrs'' e'']. simpl in H2.
  destruct (shr_m mrs'') as [|p|p]; try reflexivity; try lia.
  destruct (e'' <=? emax - prec); reflexivity.
Qed.

Lemma binary_normalize_nonneg m e :
  0 <= m -> nonneg (binary_normalize prec emax m e false) = true.
Proof.
  intros H. destruct m as [|p|p]; simpl; try reflexivity; try lia.
  unfold binary_round.
  destruct (shl_align p e _) as [mz ez].
  apply binary_round_aux_nonneg. lia.
Qed.

Lemma digits2_pos_upper m : Z.pos m < 2 ^ Z.pos (digits2_pos m).
Proof.
  induction m as [p IH|p IH|]; simpl digits2_pos;
    rewrite ?Pos2Z.inj_succ, ?Z.pow_succ_r by lia; lia.
Qed.

Lemma digits2_pos_lower m : 2 ^ (Z.pos (digits2_pos m) - 1) <= Z.pos m.
Proof.
  induction m as [p IH|p IH|]; simpl digits2_pos;
    rewrite ?Pos2Z.inj_succ; try (simpl; lia).
  - replace (Z.succ (Z.pos (digits2_pos p)) - 1)
      with (Z.succ (Z.pos (digits2_pos p) - 1)) by lia.
    rewrite Z.pow_succ_r by lia. lia.
  - replace (Z.succ (Z.pos (digits2_pos p)) - 1)
      with (Z.succ (Z.pos (digits2_pos p) - 1)) by lia.
    rewrite Z.pow_succ_r by lia. lia.
Qed.

Lemma canonical_exponent m e :
  canonical_mantissa prec emax m e = true ->
  e = Z.max (Z.pos (digits2_pos m) + e - prec) (-1074).
Proof.
  unfold canonical_mantissa, fexp, SpecFloat.emin. intros H.
  apply Z.eqb_eq in H. change (3 - emax - prec) with (-1074) in H. lia.
Qed.

Lemma shl_align_same m e : shl_align m e e = (m, e).
Proof. unfold shl_align. rewrite Z.sub_diag. reflexivity. Qed.

Lemma shl_align_shift m e e' :
  e' < e -> Z.pos (fst (shl_align m e e')) = 2 ^ (e - e') * Z.pos m.
Proof.
  intros H. unfold shl_align.
  destruct (e' - e) as [|d|d] eqn:E; try lia.
  simpl fst. change (Pos.iter xO m d) with (shift_pos d m).
  rewrite shift_pos_correct.
  replace (e - e') with (Z.pos d) by lia. reflexivity.
Qed.

Lemma aligned_difference_nonneg mx ex my ey :
  bounded prec emax mx ex = true ->
  bounded prec emax my ey = true ->
  SFltb (S754_finite false mx ex) (S754_finite false my ey) = false ->
  0 <= Z.pos (fst (shl_align mx ex (Z.min ex ey)))
       - Z.pos (fst (shl_align my ey (Z.min ex ey))).
Proof.
  unfold bounded. intros Hx Hy Hlt.
  apply andb_prop in Hx as [Hx _]. apply andb_prop in Hy as [Hy _].
  apply canonical_exponent in Hx. apply canonical_exponent in Hy.
  unfold SFltb, SFcompare in Hlt.
  destruct (Z.compare_spec ex ey) as [Heq|Hl|Hg]; try discriminate.
  - subst ey. rewrite Z.min_id, !shl_align_same. simpl fst.
    change (Pos.compare_cont Eq mx my) with (Pos.compare mx my) in Hlt.
    destruct (Pos.compare_spec mx my); try discriminate; lia.
  - rewrite Z.min_r by lia. rewrite shl_align_same. simpl fst.
    rewrite shl_align_shift by lia.
    pose proof (digits2_pos_lower mx) as Hmx.
    pose proof (digits2_pos_upper my) as Hmy.
    assert (Hdx : Z.pos (digits2_pos mx) = 53) by (unfold prec in *; lia).
    assert (Hdy : Z.pos (digits2_pos my) <= 53) by (unfold prec in *; lia).
    rewrite Hdx in Hmx.
    assert (Hp : 2 ^ 1 <= 2 ^ (ex - ey)) by (apply Z.pow_le_mono_r; lia).
    assert (Hq : 2 ^ Z.pos (digits2_pos my) <= 2 ^ 53)
      by (apply Z.pow_le_mono_r; lia).
    change (2 ^ 1) with 2 in Hp. change (2 ^ (53 - 1)) with 4503599627370496 in Hmx.
    change (2 ^ 53) with 9007199254740992 in Hq.
    nia.
Qed.

Lemma not_negative_ltb s : SFltb s (S754_zero false) = negb (not_negative s).
Proof. destruct s as [[]|[]| |[] m e]; reflexivity. Qed.

Lemma above_zero_leb s : SFleb s (S754_zero false) = negb (above_zero s).
Proof. destruct s as [[]|[]| |[] m e]; reflexivity. Qed.

Lemma SFadd_finite_nonneg x m e :
  nonneg x = true -> nonneg (SF64add x (S754_finite false m e)) = true.
Proof.
  destruct x as [s|[]| |[] mx ex]; intros H; try discriminate H; try reflexivity.
  cbv beta iota delta [SF64add SFadd cond_Zopp].
  apply binary_normalize_nonneg. lia.
Qed.

Lemma SFsub_finite_nonneg x m e :
  valid_binary x = true -> valid_binary (S754_finite false m e) = true ->
  nonneg x = true ->
  SFltb x (S754_finite false m e) = false ->
  nonneg (SF64sub x (S754_finite false m e)) = true.
Proof.
  destruct x as [s|[]| |[] mx ex]; intros Hx Hy H Hlt;
    try discriminate H; try discriminate Hlt; try reflexivity.
  cbv beta iota delta [SF64sub SFsub cond_Zopp].
  apply binary_normalize_nonneg.
  apply aligned_difference_nonneg; assumption.
Qed.

Lemma SFadd_not_negative x a :
  not_negative x = true -> above_zero a = true ->
  not_negative (SF64add x a) = true.
Proof.
  destruct a as [sa|[]| |[] ma ea]; try discriminate.
  - destruct x as [s|[]| |[] mx ex]; simpl; try discriminate; reflexivity.
  - destruct x as [s|[]| |[] mx ex]; simpl; try discriminate; reflexivity.
  - destruct x as [s|[]| |[] mx ex] eqn:E; try discriminate; try reflexivity;
      intros _ _; rewrite <- E;
      assert (H : nonneg (SF64add x (S754_finite false ma ea)) = true)
        by (apply SFadd_finite_nonneg; subst x; reflexivity);
      destruct (SF64add x _); simpl in *; congruence.
Qed.

Lemma SFsub_not_negative x a :
  valid_binary x = true -> valid_binary a = true ->
  not_negative x = true -> above_zero a = true ->
  SFltb x a = false ->
  not_negative (SF64sub x a) = true.
Proof.
  destruct a as [sa|[]| |[] ma ea]; try discriminate.
  - destruct x as [s|[]| |[] mx ex]; simpl; try discriminate; reflexivity.
  - destruct x as [s|[]| |[] mx ex]; simpl; try discriminate; reflexivity.
  - intros Hx Ha Hn _ Hlt.
    destruct x as [s|[]| |[] mx ex] eqn:E; try discriminate; try reflexivity;
      rewrite <- E in *;
      assert (H : nonneg (SF64sub x (S754_finite false ma ea)) = true)
        by (apply SFsub_finite_nonneg; subst x; auto);
      destruct (SF64sub x _); simpl in *; congruence.
Qed.

Lemma Prim2SF_zero : Prim2SF 0 = S754_zero false.
Proof. reflexivity. Qed.

Lemma Prim2SF_infinity : Prim2SF infinity = S754_infinity false.
Proof. reflexivity. Qed.

Lemma leb_zero_l b : PrimFloat.leb 0 b = nonneg (Prim2SF b).
Proof. rewrite FloatAxioms.leb_spec, Prim2SF_zero. apply nonneg_leb. Qed.

Lemma ltb_zero_r b : PrimFloat.ltb b 0 = negb (not_negative (Prim2SF b)).
Proof. rewrite FloatAxioms.ltb_spec, Prim2SF_zero. apply not_negative_ltb. Qed.

Lemma leb_zero_r a : PrimFloat.leb a 0 = negb (above_zero (Prim2SF a)).
Proof. rewrite FloatAxioms.leb_spec, Prim2SF_zero. apply above_zero_leb. Qed.

Lemma positive_finite_inv a :
  PrimFloat.leb a 0 = false -> is_finite a = true ->
  exists m e, Prim2SF a = S754_finite false m e.
Proof.
  rewrite leb_zero_r. unfold is_finite, is_nan, is_infinity.
  rewrite !FloatAxioms.eqb_spec, abs_spec, Prim2SF_infinity.
  destruct (Prim2SF a) as [s|[]| |[] m e]; simpl; try discriminate.
  intros _ _. eauto.
Qed.

Theorem add_not_negative b a :
  PrimFloat.ltb b 0 = false -> PrimFloat.leb a 0 = false ->
  PrimFloat.ltb (b + a) 0 = false.
Proof.
  rewrite !ltb_zero_r, leb_zero_r, add_spec.
  intros Hb Ha. apply negb_false_iff in Hb, Ha. apply negb_false_iff.
  apply SFadd_not_negative; assumption.
Qed.

Theorem sub_not_negative b a :
  PrimFloat.ltb b 0 = false -> PrimFloat.leb a 0 = false ->
  PrimFloat.ltb b a = false ->
  PrimFloat.ltb (b - a) 0 = false.
Proof.
  rewrite !ltb_zero_r, leb_zero_r, sub_spec, (FloatAxioms.ltb_spec b a).
  intros Hb Ha Hlt. apply negb_false_iff in Hb, Ha. apply negb_false_iff.
  apply SFsub_not_negative; auto using Prim2SF_valid.
Qed.

Theorem add_nonneg b a :
  PrimFloat.leb 0 b = true -> PrimFloat.leb a 0 = false -> is_finite a = true ->
  PrimFloat.leb 0 (b + a) = true.
Proof.
  intros Hb Ha Hf. destruct (positive_finite_inv a Ha Hf) as (m & e & E).
  rewrite leb_zero_l in *. rewrite add_spec, E.
  apply SFadd_finite_nonneg; assumption.
Qed.

Theorem sub_nonneg b a :
  PrimFloat.leb 0 b = true -> PrimFloat.leb a 0 = false -> is_finite a = true ->
  PrimFloat.ltb b a = false ->
  PrimFloat.leb 0 (b - a) = true.
Proof.
  intros Hb Ha Hf Hlt. destruct (positive_finite_inv a Ha Hf) as (m & e & E).
  rewrite leb_zero_l in *. rewrite FloatAxioms.ltb_spec in Hlt. rewrite sub_spec.
  pose proof (Prim2SF_valid a) as Va. rewrite E in *.
  apply SFsub_finite_nonneg; auto using Prim2SF_valid.
Qed.

End Binary64Facts.

(** ** The handlers, case by case *)

Lemma amount_accepted amount :
  amount_rejected amount = false ->
  exists x, amount = JS.Number x /\ PrimFloat.leb x 0 = false.
Proof.
  unfold amount_rejected.
  destruct amount; simpl; try discriminate. eauto.
Qed.

(** What [deposit] does, by the three ways it can end. *)
Lemma deposit_cases st id_param amount uuid :
  (account_at st (JS.parseInt id_param) = None /\
   deposit st id_param amount uuid = (st, json_error 404 "Account not found"))
  \/ (exists k acct,
        JS.parseInt id_param = Some k /\ accounts st !! k = Some acct /\
        amount_rejected amount = true /\
        deposit st id_param amount uuid = (st, json_error 400 "Invalid deposit amount"))
  \/ (exists k acct x,
        JS.parseInt id_param = Some k /\ accounts st !! k = Some acct /\
        amount = JS.Number x /\ PrimFloat.leb x 0 = false /\
        deposit st id_param amount uuid =
          (set_balance st k acct (PrimFloat.add (balance acct) x),
           {| status := 200; body := TransactionIdBody uuid |})).
Proof.
  unfold deposit.
  destruct (JS.parseInt id_param) as [k|]; simpl; [|left; done].
  destruct (accounts st !! k) as [acct|] eqn:Hacct; [|left; done].
  unfold assign_balance.
  destruct (amount_rejected amount) eqn:Hrej.
  - right; left. exists k, acct. done.
  - right; right. destruct (amount_accepted _ Hrej) as (x & -> & Hx).
    exists k, acct, x. done.
Qed.

(** What [withdraw] does, by the four ways it can end. *)
Lemma withdraw_cases st id_param amount uuid :
  (account_at st (JS.parseInt id_param) = None /\
   withdraw st id_param amount uuid = (st, json_error 404 "Account not found"))
  \/ (exists k acct,
        JS.parseInt id_param = Some k /\ accounts st !! k = Some acct /\
        amount_rejected amount = true /\
        withdraw st id_param amount uuid = (st, json_error 400 "Invalid withdrawal amount"))
  \/ (exists k acct x,
        JS.parseInt id_param = Some k /\ accounts st !! k = Some acct /\
        amount = JS.Number x /\ PrimFloat.leb x 0 = false /\
        PrimFloat.ltb (balance acct) x = true /\
        withdraw st id_param amount uuid = (st, json_error 400 "Insufficient funds"))
  \/ (exists k acct x,
        JS.parseInt id_param = Some k /\ accounts st !! k = Some acct /\
        amount = JS.Number x /\ PrimFloat.leb x 0 = false /\
        PrimFloat.ltb (balance acct) x = false /\
        withdraw st id_param amount uuid =
          (set_balance st k acct (PrimFloat.sub (balance acct) x),
           {| status := 200; body := TransactionIdBody uuid |})).
Proof.
  unfold withdraw.
  destruct (JS.parseInt id_param) as [k|]; simpl; [|left; done].
  destruct (accounts st !! k) as [acct|] eqn:Hacct; [|left; done].
  unfold assign_balance.
  destruct (amount_rejected amount) eqn:Hrej.
  - right; left. exists k, acct. done.
  - destruct (amount_accepted _ Hrej) as (x & -> & Hx). simpl.
    destruct (PrimFloat.ltb (balance acct) x) eqn:Hlt.
    + right; right; left. exists k, acct, x. done.
    + right; right; right. exists k, acct, x. done.
Qed.

Lemma getBalance_store st id_param : (getBalance st id_param).1 = st.
Proof. unfold getBalance. destruct (account_at st _); reflexivity. Qed.

(** ** Balances along a run *)

Lemma balances_set_balance ok st k acct b :
  balances ok st -> ok b = true -> balances ok (set_balance st k acct b).
Proof.
  intros Hst Hb k' acct'. unfold set_balance. simpl.
  rewrite lookup_insert_Some. intros [[_ <-]|[_ Hk']]; [exact Hb|eauto].
Qed.

Lemma balances_createAccount ok st :
  ok 0%float = true -> balances ok st -> balances ok (createAccount st).1.
Proof.
  intros H0 Hst k acct. unfold createAccount. simpl.
  rewrite lookup_insert_Some. intros [[_ <-]|[_ Hk]]; [exact H0|eauto].
Qed.

Lemma call_never_negative st c :
  balances never_negative st -> balances never_negative (call st c).1.
Proof.
  intros Hst. destruct c as [|i a u|i a u|i]; simpl.
  - apply balances_createAccount; [reflexivity|exact Hst].
  - destruct (deposit_cases st i a u)
      as [[_ ->]|[(k & acct & _ & _ & _ & ->)|(k & acct & x & _ & Hk & _ & Hx & ->)]];
      try exact Hst.
    apply balances_set_balance; [exact Hst|].
    unfold never_negative. rewrite Binary64Facts.add_not_negative; [reflexivity| |exact Hx].
    apply negb_true_iff, (Hst k acct Hk).
  - destruct (withdraw_cases st i a u)
      as [[_ ->]|[(k & acct & _ & _ & _ & ->)
                 |[(k & acct & x & _ & _ & _ & _ & _ & ->)
                  |(k & acct & x & _ & Hk & _ & Hx & Hlt & ->)]]];
      try exact Hst.
    apply balances_set_balance; [exact Hst|].
    unfold never_negative.
    rewrite Binary64Facts.sub_not_negative; [reflexivity| |exact Hx|exact Hlt].
    apply negb_true_iff, (Hst k acct Hk).
  - rewrite getBalance_store. exact Hst.
Qed.

Lemma call_at_least_zero st c :
  finite_amount c = true ->
  balances at_least_zero st -> balances at_least_zero (call st c).1.
Proof.
  intros Hfin Hst. destruct c as [|i a u|i a u|i]; simpl.
  - apply balances_createAccount; [reflexivity|exact Hst].
  - destruct (deposit_cases st i a u)
      as [[_ ->]|[(k & acct & _ & _ & _ & ->)|(k & acct & x & _ & Hk & -> & Hx & ->)]];
      try exact Hst.
    apply balances_set_balance; [exact Hst|].
    apply Binary64Facts.add_nonneg; [exact (Hst k acct Hk)|exact Hx|exact Hfin].
  - destruct (withdraw_cases st i a u)
      as [[_ ->]|[(k & acct & _ & _ & _ & ->)
                 |[(k & acct & x & _ & _ & _ & _ & _ & ->)
                  |(k & acct & x & _ & Hk & -> & Hx & Hlt & ->)]]];
      try exact Hst.
    apply balances_set_balance; [exact Hst|].
    apply Binary64Facts.sub_nonneg;
      [exact (Hst k acct Hk)|exact Hx|exact Hfin|exact Hlt].
  - rewrite getBalance_store. exact Hst.
Qed.

Lemma run_never_negative cs : forall st,
  balances never_negative st -> balances never_negative (run st cs).
Proof.
  induction cs as [|c cs IH]; intros st Hst; simpl; [exact Hst|].
  apply IH, call_never_negative, Hst.
Qed.

Lemma run_at_least_zero cs : forall st,
  forallb finite_amount cs = true ->
  balances at_least_zero st -> balances at_least_zero (run st cs).
Proof.
  induction cs as [|c cs IH]; intros st Hfin Hst; simpl; [exact Hst|].
  simpl in Hfin. apply andb_prop in Hfin as [Hc Hcs].
  apply IH; [exact Hcs|]. apply call_at_least_zero; assumption.
Qed.

Lemma balances_initial ok : balances ok initial_store.
Proof. intros k acct. unfold initial_store. simpl. rewrite lookup_empty. discriminate. Qed.

(** ** C1: the sign of a balance *)

(** C1, at a concrete input: an account is created, [Infinity] is deposited
    (the JSON number [1e999] is parsed to it) and [Infinity] is withdrawn;
    both calls succeed, the balance of account 1 becomes [Infinity - Infinity],
    which is [NaN], and [0 <= NaN] is false.  So "the balance is >= 0 after
    every sequence of calls" fails. *)
Lemma balance_not_at_least_zero :
  let cs := [CreateAccount;
             Deposit "1" (JS.Number infinity) "t1";
             Withdraw "1" (JS.Number infinity) "t2"] in
  (call (run initial_store [CreateAccount]) (Deposit "1" (JS.Number infinity) "t1")).2
    = {| status := 200; body := TransactionIdBody "t1" |}
  /\ (call (run initial_store [CreateAccount; Deposit "1" (JS.Number infinity) "t1"])
        (Withdraw "1" (JS.Number infinity) "t2")).2
    = {| status := 200; body := TransactionIdBody "t2" |}
  /\ accounts (run initial_store cs) !! 1 = Some {| id := 1; balance := nan |}
  /\ PrimFloat.leb 0 nan = false.
Proof. repeat split; reflexivity. Qed.

(** C1, as the code has it: after every sequence of calls, made with any
    amounts, no balance is negative ([balance < 0] is false for every
    account); and when no call carries the amount [NaN] or an infinite
    amount, every balance is [>= 0]. *)
Theorem balance_never_negative cs k acct :
  accounts (run initial_store cs) !! k = Some acct ->
  PrimFloat.ltb (balance acct) 0 = false
  /\ (forallb finite_amount cs = true -> PrimFloat.leb 0 (balance acct) = true).
Proof.
  intros Hk. split.
  - apply negb_true_iff.
    exact (run_never_negative cs initial_store (balances_initial _) k acct Hk).
  - intros Hfin.
    exact (run_at_least_zero cs initial_store Hfin (balances_initial _) k acct Hk).
Qed.

(** A run with a refused withdrawal, a deposit on an unknown account and a
    refused amount: account 1 ends at 70. *)
Lemma balance_never_negative_witness :
  let cs := [CreateAccount;
             Deposit "1" (JS.Number 100) "t1";
             Withdraw "1" (JS.Number 30) "t2";
             Withdraw "1" (JS.Number 100) "t3";
             Deposit "2" (JS.Number 5) "t4";
             Deposit "1" (JS.Str "abc") "t5"] in
  accounts (run initial_store cs) !! 1 = Some {| id := 1; balance := 70 |}
  /\ PrimFloat.ltb 70 0 = false
  /\ PrimFloat.leb 0 70 = true.
Proof.
  pose (cs := [CreateAccount;
               Deposit "1" (JS.Number 100) "t1";
               Withdraw "1" (JS.Number 30) "t2";
               Withdraw "1" (JS.Number 100) "t3";
               Deposit "2" (JS.Number 5) "t4";
               Deposit "1" (JS.Str "abc") "t5"]).
  destruct (balance_never_negative cs 1 {| id := 1; balance := 70 |} eq_refl)
    as [Hlt Hle].
  split; [reflexivity|]. split; [exact Hlt|]. apply Hle. reflexivity.
Defined.

(** ** Comparisons of binary64 values *)

Lemma SFcompare_swap x y : SFcompare y x = option_map CompOpp (SFcompare x y).
Proof.
  destruct x as [[]|[]| |[] mx ex], y as [[]|[]| |[] my ey];
    simpl; try reflexivity;
    rewrite (Z.compare_antisym ex ey);
    change (Pos.compare_cont Eq my mx) with (Pos.compare my mx);
    change (Pos.compare_cont Eq mx my) with (Pos.compare mx my);
    rewrite (Pos.compare_antisym mx my);
    destruct (ex ?= ey); simpl; try reflexivity;
    destruct (mx ?= my)%positive; reflexivity.
Qed.

(** [b < x] and [x > b] are the same test: the comparison of [x] with [b]
    answers "greater". *)
Lemma ltb_compare_gt b x :
  PrimFloat.ltb b x = true <-> PrimFloat.compare x b = FGt.
Proof.
  rewrite FloatAxioms.ltb_spec, FloatAxioms.compare_spec.
  unfold SFltb. rewrite (SFcompare_swap (Prim2SF x) (Prim2SF b)).
  destruct (SFcompare (Prim2SF x) (Prim2SF b)) as [[]|]; simpl;
    split; intros H; try reflexivity; discriminate H.
Qed.

(** Away from [NaN], [x <= 0] is the negation of [0 < x]. *)
Lemma leb_zero_ltb x :
  is_nan x = false -> PrimFloat.leb x 0 = negb (PrimFloat.ltb 0 x).
Proof.
  unfold is_nan.
  rewrite FloatAxioms.eqb_spec, FloatAxioms.leb_spec, FloatAxioms.ltb_spec.
  rewrite Binary64Facts.Prim2SF_zero.
  destruct (Prim2SF x) as [[]|[]| |[] m e]; try reflexivity.
  discriminate.
Qed.

Lemma ltb_zero_leb x : PrimFloat.ltb 0 x = true -> PrimFloat.leb x 0 = false.
Proof.
  rewrite FloatAxioms.leb_spec, FloatAxioms.ltb_spec, Binary64Facts.Prim2SF_zero.
  destruct (Prim2SF x) as [[]|[]| |[] m e]; try reflexivity; discriminate.
Qed.

(** ** The handlers on an account that exists *)

Lemma deposit_existing st id_param k acct amount uuid :
  JS.parseInt id_param = Some k -> accounts st !! k = Some acct ->
  deposit st id_param amount uuid =
    if amount_rejected amount
    then (st, json_error 400 "Invalid deposit amount")
    else (set_balance st k acct (PrimFloat.add (balance acct) (number_of amount)),
          {| status := 200; body := TransactionIdBody uuid |}).
Proof. intros Hp Hk. unfold deposit. rewrite Hp. simpl. rewrite Hk. reflexivity. Qed.

Lemma withdraw_existing st id_param k acct amount uuid :
  JS.parseInt id_param = Some k -> accounts st !! k = Some acct ->
  withdraw st id_param amount uuid =
    if amount_rejected amount
    then (st, json_error 400 "Invalid withdrawal amount")
    else if PrimFloat.ltb (balance acct) (number_of amount)
    then (st, json_error 400 "Insufficient funds")
    else (set_balance st k acct (PrimFloat.sub (balance acct) (number_of amount)),
          {| status := 200; body := TransactionIdBody uuid |}).
Proof. intros Hp Hk. unfold withdraw. rewrite Hp. simpl. rewrite Hk. reflexivity. Qed.

Lemma amount_rejected_positive amount :
  is_NaN amount = false -> amount_rejected amount = negb (positive_number amount).
Proof.
  destruct amount; try reflexivity. simpl. intros Hnan.
  apply leb_zero_ltb, Hnan.
Qed.

(** ** C2: which amounts are refused *)

(** C2, at a concrete input: [Infinity] is not a positive finite number, and
    a deposit of [Infinity] into an existing account is not refused: it
    succeeds with status 200 and the balance becomes [Infinity]. *)
Lemma infinite_amount_accepted :
  let st := run initial_store [CreateAccount] in
  positive_finite_number (JS.Number infinity) = false
  /\ deposit st "1" (JS.Number infinity) "t1" =
       (set_balance st 1 {| id := 1; balance := 0 |} infinity,
        {| status := 200; body := TransactionIdBody "t1" |})
  /\ failure_of (deposit st "1" (JS.Number infinity) "t1").2 = None.
Proof. repeat split; reflexivity. Qed.

(** C2, as the code has it: on an existing account and for an amount other
    than [NaN], deposit and withdraw fail with InvalidAmount exactly when
    the amount is not a number greater than zero, the infinite one
    included; so [0], [-5] and ["abc"] are refused by both operations, and
    [Infinity] is not refused by deposit. *)
Theorem invalid_amount_iff st id_param k acct amount uuid :
  JS.parseInt id_param = Some k -> accounts st !! k = Some acct ->
  is_NaN amount = false ->
  (failure_of (deposit st id_param amount uuid).2 = Some InvalidAmount
     <-> positive_number amount = false)
  /\ (failure_of (withdraw st id_param amount uuid).2 = Some InvalidAmount
     <-> positive_number amount = false)
  /\ (forall a, In a [JS.Number 0; JS.Number (-5); JS.Str "abc"] ->
        failure_of (deposit st id_param a uuid).2 = Some InvalidAmount
        /\ failure_of (withdraw st id_param a uuid).2 = Some InvalidAmount)
  /\ status (deposit st id_param (JS.Number infinity) uuid).2 = 200.
Proof.
  intros Hp Hk Hnan.
  pose proof (amount_rejected_positive amount Hnan) as Hrej.
  split; [|split; [|split]].
  - rewrite (deposit_existing _ _ _ _ _ _ Hp Hk), Hrej.
    destruct (positive_number amount); simpl; split; intros H;
      try reflexivity; discriminate H.
  - rewrite (withdraw_existing _ _ _ _ _ _ Hp Hk), Hrej.
    destruct (positive_number amount); simpl.
    + destruct (PrimFloat.ltb _ _); simpl; split; intros H; discriminate H.
    + split; reflexivity.
  - intros a Ha.
    rewrite (deposit_existing _ _ _ _ _ _ Hp Hk), (withdraw_existing _ _ _ _ _ _ Hp Hk).
    simpl in Ha. destruct Ha as [<-|[<-|[<-|[]]]]; split; reflexivity.
  - rewrite (deposit_existing _ _ _ _ _ _ Hp Hk). reflexivity.
Qed.

(** On the store holding one fresh account. *)
Lemma invalid_amount_iff_witness :
  let st := run initial_store [CreateAccount] in
  failure_of (deposit st "1" (JS.Number 0) "t1").2 = Some InvalidAmount
  /\ failure_of (withdraw st "1" (JS.Str "abc") "t1").2 = Some InvalidAmount
  /\ status (deposit st "1" (JS.Number infinity) "t1").2 = 200.
Proof.
  pose (st := run initial_store [CreateAccount]).
  destruct (invalid_amount_iff st "1" 1 {| id := 1; balance := 0 |}
              (JS.Number 0) "t1" eq_refl eq_refl eq_refl)
    as (Hd & _ & Hall & Hinf).
  split; [apply Hd; reflexivity|].
  split; [|exact Hinf].
  apply (Hall (JS.Str "abc")). simpl. auto.
Defined.

(** The guard lets [NaN] through as well: [typeof NaN] is ['number'] and
    [NaN <= 0] is false. *)
Example nan_amount_passes_guard : amount_rejected (JS.Number nan) = false.
Proof. reflexivity. Qed.

(** ** C3: insufficient funds *)

(** C3: on an existing account and for a positive finite amount, withdraw
    fails with InsufficientFunds exactly when the amount is greater than
    the current balance, and that failure leaves the store, hence the
    balance of the account, as it was. *)
Theorem insufficient_funds_iff st id_param k acct x uuid :
  JS.parseInt id_param = Some k -> accounts st !! k = Some acct ->
  PrimFloat.ltb 0 x = true -> is_finite x = true ->
  (failure_of (withdraw st id_param (JS.Number x) uuid).2 = Some InsufficientFunds
     <-> PrimFloat.compare x (balance acct) = FGt)
  /\ (failure_of (withdraw st id_param (JS.Number x) uuid).2 = Some InsufficientFunds ->
      (withdraw st id_param (JS.Number x) uuid).1 = st
      /\ accounts (withdraw st id_param (JS.Number x) uuid).1 !! k = Some acct).
Proof.
  intros Hp Hk Hpos _.
  rewrite (withdraw_existing _ _ _ _ _ _ Hp Hk).
  unfold amount_rejected. simpl. rewrite (ltb_zero_leb x Hpos).
  rewrite <- ltb_compare_gt.
  destruct (PrimFloat.ltb (balance acct) x); simpl.
  - split; [split; reflexivity|]. intros _. split; [reflexivity|exact Hk].
  - split; [split; intros H; discriminate H|]. intros H; discriminate H.
Qed.

(** Account 1 holds 50 and 80 is asked for. *)
Lemma insufficient_funds_iff_witness :
  let st := run initial_store [CreateAccount; Deposit "1" (JS.Number 50) "t1"] in
  failure_of (withdraw st "1" (JS.Number 80) "t2").2 = Some InsufficientFunds
  /\ (withdraw st "1" (JS.Number 80) "t2").1 = st.
Proof.
  pose (st := run initial_store [CreateAccount; Deposit "1" (JS.Number 50) "t1"]).
  destruct (insufficient_funds_iff st "1" 1 {| id := 1; balance := 50 |} 80 "t2"
              eq_refl eq_refl eq_refl eq_refl) as [Hiff Hsame].
  assert (H : failure_of (withdraw st "1" (JS.Number 80) "t2").2 = Some InsufficientFunds)
    by (apply Hiff; reflexivity).
  split; [exact H|]. exact (proj1 (Hsame H)).
Defined.

(** ** C4: what a deposit adds *)

Lemma getBalance_existing st id_param k acct :
  JS.parseInt id_param = Some k -> accounts st !! k = Some acct ->
  getBalance st id_param = (st, {| status := 200; body := BalanceBody (balance acct) |}).
Proof. intros Hp Hk. unfold getBalance. rewrite Hp. simpl. rewrite Hk. reflexivity. Qed.

(** C4, at a concrete input: account 1 holds 9007199254740992 (2^53); a
    deposit of 1 succeeds, and the balance read afterwards is still
    9007199254740992: it did not increase by exactly 1. *)
Lemma deposit_not_exact :
  let st := run initial_store
              [CreateAccount; Deposit "1" (JS.Number 9007199254740992) "t1"] in
  (getBalance st "1").2 = {| status := 200; body := BalanceBody 9007199254740992 |}
  /\ (deposit st "1" (JS.Number 1) "t2").2
       = {| status := 200; body := TransactionIdBody "t2" |}
  /\ (getBalance (deposit st "1" (JS.Number 1) "t2").1 "1").2
       = {| status := 200; body := BalanceBody 9007199254740992 |}.
Proof. repeat split; reflexivity. Qed.

(** C4, as the code has it: a successful deposit replaces the balance of
    the account by the binary64 sum of the balance and the amount (the
    exact sum rounded to the nearest binary64 value), which is what a
    balance read returns afterwards; and depositing 100 into a freshly
    created account, then reading its balance, yields exactly 100. *)
Theorem deposit_adds_amount st id_param k acct amount uuid :
  JS.parseInt id_param = Some k -> accounts st !! k = Some acct ->
  status (deposit st id_param amount uuid).2 = 200 ->
  (getBalance (deposit st id_param amount uuid).1 id_param).2
    = {| status := 200;
         body := BalanceBody (PrimFloat.add (balance acct) (number_of amount)) |}
  /\ (forall s new_id,
        JS.parseInt new_id = Some (nextAccountId s) ->
        (getBalance
           (deposit (createAccount s).1 new_id (JS.Number 100) uuid).1 new_id).2
        = {| status := 200; body := BalanceBody 100 |}).
Proof.
  intros Hp Hk Hok. split.
  - rewrite (deposit_existing _ _ _ _ _ _ Hp Hk) in *.
    destruct (amount_rejected amount); [discriminate Hok|]. simpl.
    set (b := PrimFloat.add (balance acct) (number_of amount)).
    assert (Hnew : accounts (set_balance st k acct b) !! k
                   = Some {| id := id acct; balance := b |})
      by apply lookup_insert_eq.
    rewrite (getBalance_existing _ _ _ _ Hp Hnew). reflexivity.
  - intros s new_id Hnew.
    assert (Hfresh : accounts (createAccount s).1 !! nextAccountId s
                     = Some {| id := nextAccountId s; balance := 0 |})
      by (unfold createAccount; simpl; apply lookup_insert_eq).
    rewrite (deposit_existing _ _ _ _ _ _ Hnew Hfresh).
    set (s1 := (createAccount s).1).
    change (amount_rejected (JS.Number 100)) with false. cbv iota.
    change (PrimFloat.add (balance {| id := nextAccountId s; balance := 0 |})
              (number_of (JS.Number 100))) with 100%float.
    cbn [fst].
    assert (Hdep : accounts (set_balance s1 (nextAccountId s)
                               {| id := nextAccountId s; balance := 0 |} 100)
                     !! nextAccountId s
                   = Some {| id := nextAccountId s; balance := 100 |})
      by apply lookup_insert_eq.
    rewrite (getBalance_existing _ _ _ _ Hnew Hdep). reflexivity.
Qed.

(** The first account of the server, 100 deposited, balance read. *)
Lemma deposit_adds_amount_witness :
  (getBalance (deposit (createAccount initial_store).1 "1" (JS.Number 100) "t1").1 "1").2
    = {| status := 200; body := BalanceBody 100 |}.
Proof.
  exact (proj1 (deposit_adds_amount (createAccount initial_store).1 "1" 1
                  {| id := 1; balance := 0 |} (JS.Number 100) "t1"
                  eq_refl eq_refl eq_refl)).
Defined.

(** ** C6: unknown accounts *)

(** C6: when the id names no account of the store, deposit, withdraw and
    the balance read each fail with AccountNotFound. *)
Theorem unknown_account_not_found st id_param amount uuid :
  account_at st (JS.parseInt id_param) = None ->
  failure_of (deposit st id_param amount uuid).2 = Some AccountNotFound
  /\ failure_of (withdraw st id_param amount uuid).2 = Some AccountNotFound
  /\ failure_of (getBalance st id_param).2 = Some AccountNotFound.
Proof.
  intros Hnone. split; [|split].
  - destruct (deposit_cases st id_param amount uuid)
      as [[_ E]|[(k & acct & Hp & Hk & _)|(k & acct & x & Hp & Hk & _)]];
      [rewrite E; reflexivity| |];
      rewrite Hp in Hnone; simpl in Hnone; congruence.
  - destruct (withdraw_cases st id_param amount uuid)
      as [[_ E]|[(k & acct & Hp & Hk & _)
                |[(k & acct & x & Hp & Hk & _)|(k & acct & x & Hp & Hk & _)]]];
      [rewrite E; reflexivity| | |];
      rewrite Hp in Hnone; simpl in Hnone; congruence.
  - unfold getBalance. rewrite Hnone. reflexivity.
Qed.

(** Only account 1 exists; the calls name account 2. *)
Lemma unknown_account_not_found_witness :
  let st := run initial_store [CreateAccount] in
  failure_of (deposit st "2" (JS.Number 10) "t1").2 = Some AccountNotFound
  /\ failure_of (withdraw st "2" (JS.Number 10) "t1").2 = Some AccountNotFound
  /\ failure_of (getBalance st "2").2 = Some AccountNotFound.
Proof.
  exact (unknown_account_not_found (run initial_store [CreateAccount]) "2"
           (JS.Number 10) "t1" eq_refl).
Defined.

(** ** C9: a failed call changes nothing *)

(** C9: when deposit or withdraw fails with AccountNotFound, InvalidAmount
    or InsufficientFunds, the store after the call is the store before it:
    the same accounts with the same balances, and the same next id. *)
Theorem failed_call_keeps_store st id_param amount uuid :
  (In (failure_of (deposit st id_param amount uuid).2)
      [Some AccountNotFound; Some InvalidAmount; Some InsufficientFunds] ->
   (deposit st id_param amount uuid).1 = st)
  /\ (In (failure_of (withdraw st id_param amount uuid).2)
        [Some AccountNotFound; Some InvalidAmount; Some InsufficientFunds] ->
      (withdraw st id_param amount uuid).1 = st).
Proof.
  split; intros Hfail.
  - destruct (deposit_cases st id_param amount uuid)
      as [[_ E]|[(k & acct & _ & _ & _ & E)|(k & acct & x & _ & _ & _ & _ & E)]];
      rewrite E in *; try reflexivity.
    simpl in Hfail. destruct Hfail as [H|[H|[H|[]]]]; discriminate H.
  - destruct (withdraw_cases st id_param amount uuid)
      as [[_ E]|[(k & acct & _ & _ & _ & E)
                |[(k & acct & x & _ & _ & _ & _ & _ & E)
                 |(k & acct & x & _ & _ & _ & _ & _ & E)]]];
      rewrite E in *; try reflexivity.
    simpl in Hfail. destruct Hfail as [H|[H|[H|[]]]]; discriminate H.
Qed.

(** A refused amount and an overdraft on account 1, which holds 50. *)
Lemma failed_call_keeps_store_witness :
  let st := run initial_store [CreateAccount; Deposit "1" (JS.Number 50) "t1"] in
  (deposit st "1" (JS.Number (-5)) "t2").1 = st
  /\ (withdraw st "1" (JS.Number 80) "t3").1 = st.
Proof.
  pose (st := run initial_store [CreateAccount; Deposit "1" (JS.Number 50) "t1"]).
  split.
  - apply (proj1 (failed_call_keeps_store st "1" (JS.Number (-5)) "t2")).
    simpl. auto.
  - apply (proj2 (failed_call_keeps_store st "1" (JS.Number 80) "t3")).
    simpl. auto.
Defined.

(** ** C10: what a successful call touches *)

Lemma set_balance_only_balance st k acct b :
  accounts st !! k = Some acct -> only_balance_of k st (set_balance st k acct b).
Proof.
  intros Hk. unfold only_balance_of, set_balance. simpl.
  split; [|split; [|split]].
  - intros k' Hne. apply lookup_insert_ne. congruence.
  - apply dom_insert_lookup_L. rewrite Hk. eauto.
  - reflexivity.
  - rewrite lookup_insert_eq, Hk. reflexivity.
Qed.

(** C10: a successful deposit or withdraw on account [k] changes nothing
    but the balance of that account (every other account, the set of
    account ids and the next id are as before), and a balance read leaves
    the store as it was. *)
Theorem successful_call_frame st id_param k amount uuid :
  JS.parseInt id_param = Some k ->
  (status (deposit st id_param amount uuid).2 = 200 ->
   only_balance_of k st (deposit st id_param amount uuid).1)
  /\ (status (withdraw st id_param amount uuid).2 = 200 ->
      only_balance_of k st (withdraw st id_param amount uuid).1)
  /\ (getBalance st id_param).1 = st.
Proof.
  intros Hp. split; [|split].
  - intros Hok.
    destruct (deposit_cases st id_param amount uuid)
      as [[_ E]|[(k1 & acct & _ & _ & _ & E)|(k1 & acct & x & Hp1 & Hk & _ & _ & E)]];
      rewrite E in *; try discriminate Hok.
    simpl. assert (k1 = k) as -> by congruence.
    apply set_balance_only_balance, Hk.
  - intros Hok.
    destruct (withdraw_cases st id_param amount uuid)
      as [[_ E]|[(k1 & acct & _ & _ & _ & E)
                |[(k1 & acct & x & _ & _ & _ & _ & _ & E)
                 |(k1 & acct & x & Hp1 & Hk & _ & _ & _ & E)]]];
      rewrite E in *; try discriminate Hok.
    simpl. assert (k1 = k) as -> by congruence.
    apply set_balance_only_balance, Hk.
  - apply getBalance_store.
Qed.

(** Two accounts; a deposit on the first, a withdrawal on the second. *)
Lemma successful_call_frame_witness :
  let st := run initial_store
              [CreateAccount; CreateAccount; Deposit "2" (JS.Number 7) "t1"] in
  only_balance_of 1 st (deposit st "1" (JS.Number 50) "t2").1
  /\ only_balance_of 2 st (withdraw st "2" (JS.Number 3) "t3").1
  /\ (getBalance st "1").1 = st.
Proof.
  pose (st := run initial_store
                [CreateAccount; CreateAccount; Deposit "2" (JS.Number 7) "t1"]).
  split; [|split].
  - apply (proj1 (successful_call_frame st "1" 1 (JS.Number 50) "t2" eq_refl)).
    reflexivity.
  - apply (proj1 (proj2 (successful_call_frame st "2" 2 (JS.Number 3) "t3" eq_refl))).
    reflexivity.
  - apply getBalance_store.
Defined.

(** ** The next id along a run *)

Lemma call_nextAccountId st c :
  nextAccountId (call st c).1 = nextAccountId st + creations [c].
Proof.
  destruct c as [|i a u|i a u|i]; simpl.
  - lia.
  - destruct (deposit_cases st i a u)
      as [[_ ->]|[(k & acct & _ & _ & _ & ->)|(k & acct & x & _ & _ & _ & _ & ->)]];
      simpl; lia.
  - destruct (withdraw_cases st i a u)
      as [[_ ->]|[(k & acct & _ & _ & _ & ->)
                 |[(k & acct & x & _ & _ & _ & _ & _ & ->)
                  |(k & acct & x & _ & _ & _ & _ & _ & ->)]]];
      simpl; lia.
  - rewrite getBalance_store. lia.
Qed.

Lemma run_nextAccountId cs : forall st,
  nextAccountId (run st cs) = nextAccountId st + creations cs.
Proof.
  induction cs as [|c cs IH]; intros st; simpl run; [simpl; lia|].
  rewrite IH, call_nextAccountId.
  destruct c; simpl; lia.
Qed.

(** ** The header ["Bearer <token>"] *)

Lemma split_space_no_space s : has_space s = false -> JS.split_space s = [s].
Proof.
  induction s as [|c s IH]; simpl; [reflexivity|].
  destruct (Ascii.eqb c " "); simpl; [discriminate|].
  intros H. rewrite (IH H). reflexivity.
Qed.

Lemma split_space_word w rest :
  has_space w = false ->
  JS.split_space (w ++ String " " rest) = w :: JS.split_space rest.
Proof.
  induction w as [|c w IH]; simpl; [reflexivity|].
  destruct (Ascii.eqb c " "); simpl; [discriminate|].
  intros H. rewrite (IH H). reflexivity.
Qed.

Lemma bearer_token_of token :
  has_space token = false -> bearer_token ("Bearer " ++ token) = Some token.
Proof.
  intros H. unfold bearer_token.
  change ("Bearer " ++ token)%string with ("Bearer" ++ String " " token)%string.
  rewrite split_space_word by reflexivity.
  rewrite (split_space_no_space _ H). reflexivity.
Qed.

(** ** The unary instance meets the contract *)







(** ** The gate and the routes behind it *)

(** C5, at a concrete input: the headers ["Bearer"] and the empty header
    are present but carry no bearer value ([split(' ')[1]] is [undefined]),
    and on them the gate does not fail with MissingCredential, whatever
    [jwt.verify] answers: it hands [undefined] to [jwt.verify] and, that
    being refused, fails with InvalidCredential. *)
Lemma header_without_token_not_missing :
  bearer_token "Bearer" = None
  /\ bearer_token EmptyString = None
  /\ never_missing_credential "Bearer"
  /\ never_missing_credential EmptyString.
Proof.
  split; [reflexivity|]. split; [reflexivity|].
  split; intros jwt_verify now; unfold verifyToken;
    (split;
     [destruct (jwt_verify _ jwtSecret now); simpl; discriminate
     |intros Hb Hv; rewrite Hb, Hv; reflexivity]).
Qed.

Section ServerFacts.

Variable jwt_sign : Claims -> string -> string -> Z -> string.
Variable jwt_verify : option string -> string -> Z -> option Decoded.

Let gate := verifyToken jwt_verify.
Let server := serve jwt_sign jwt_verify.



(** C5, as the code has it: the gate fails with MissingCredential exactly
    when the request carries no authorization header; when it carries one,
    even one without a token part, the second word of the header
    ([undefined] when there is none) is handed to [jwt.verify], the gate
    fails with InvalidCredential exactly when that verification fails, and
    when it succeeds the decoded payload (identity and role) is attached to
    the request and the handler of the route runs. *)
Theorem verifyToken_gate authorization now :
  (gate_failure (gate authorization now) = Some MissingCredential
   <-> authorization = None)
  /\ (forall h,
        gate_failure (gate (Some h) now) = Some InvalidCredential
        <-> jwt_verify (bearer_token h) jwtSecret now = None)
  /\ (forall h decoded,
        jwt_verify (bearer_token h) jwtSecret now = Some decoded ->
        gate (Some h) now = Next decoded
        /\ forall st handler,
             protected jwt_verify (Some h) now st handler = handler st).
Proof.
  unfold gate, protected, verifyToken. split; [|split].
  - destruct authorization as [h|]; [|split; reflexivity].
    destruct (jwt_verify (bearer_token h) jwtSecret now); simpl;
      split; intros H; discriminate H.
  - intros h. destruct (jwt_verify (bearer_token h) jwtSecret now); simpl;
      split; intros H; try reflexivity; discriminate H.
  - intros h decoded ->. split; reflexivity.
Qed.

(** C7: a call of the account-creation route that passes the gate runs
    [createAccount], which always answers 201 with the id it allocated:
    the current value of the counter, stored with balance 0, the counter
    moving on by one.  The counter starts at 1 and no other call moves it,
    so after any sequence of calls the id returned is one more than the
    number of accounts created before. *)
Theorem createAccount_sequential st cs authorization now uuid :
  match gate authorization now with
  | Next _ => server st (PostAccounts authorization) now uuid = createAccount st
  | Sent r => server st (PostAccounts authorization) now uuid = (st, r)
  end
  /\ (createAccount st).2
     = {| status := 201; body := AccountIdBody (nextAccountId st) |}
  /\ accounts (createAccount st).1 !! nextAccountId st
     = Some {| id := nextAccountId st; balance := 0 |}
  /\ nextAccountId (createAccount st).1 = nextAccountId st + 1
  /\ nextAccountId initial_store = 1
  /\ (call (run initial_store cs) CreateAccount).2
     = {| status := 201; body := AccountIdBody (1 + creations cs) |}.
Proof.
  split; [|split; [|split; [|split; [|split]]]].
  - unfold server, serve, protected. fold gate.
    destruct (gate authorization now); reflexivity.
  - reflexivity.
  - unfold createAccount. simpl. apply lookup_insert_eq.
  - reflexivity.
  - reflexivity.
  - simpl. unfold createAccount. simpl.
    rewrite run_nextAccountId. reflexivity.
Qed.

(** *** The contract of jsonwebtoken, for the tokens the login route signs *)

(** Until [token_lifetime] seconds after it was signed, the token verifies
    and decodes to the signed payload. *)
Hypothesis verify_fresh : forall now t,
  0 <= now -> now <= t < now + token_lifetime ->
  jwt_verify (Some (jwt_sign admin_claims jwtSecret tokenExpiry now)) jwtSecret t
  = Some {| claims := admin_claims; iat := now; exp := now + token_lifetime |}.

(** From then on verification fails. *)
Hypothesis verify_expired : forall now t,
  0 <= now -> now + token_lifetime <= t ->
  jwt_verify (Some (jwt_sign admin_claims jwtSecret tokenExpiry now)) jwtSecret t
  = None.

(** A token holds no space. *)
Hypothesis sign_no_space : forall now,
  has_space (jwt_sign admin_claims jwtSecret tokenExpiry now) = false.

(** Verification under the secret succeeds on nothing but a token that was
    signed under the secret: a missing token, a token without signature, a
    token signed with another key and a signed token that was altered are
    all refused. *)
Hypothesis verify_authentic : forall token t decoded,
  jwt_verify token jwtSecret t = Some decoded ->
  exists c e issued, token = Some (jwt_sign c jwtSecret e issued).


End ServerFacts.

(** The gate over the unary instance, at clock 10. *)
Lemma verifyToken_gate_witness :
  gate_failure (verifyToken UnaryJwt.verify None 10) = Some MissingCredential
  /\ gate_failure (verifyToken UnaryJwt.verify (Some "Bearer x.y"%string) 10)
     = Some InvalidCredential
  /\ verifyToken UnaryJwt.verify (Some "Bearer xx"%string) 10
     = Next {| claims := admin_claims; iat := 2; exp := 3602 |}.
Proof.
  destruct (verifyToken_gate UnaryJwt.verify None 10)
    as (Hmissing & Hinvalid & Hnext).
  split; [apply Hmissing; reflexivity|]. split.
  - apply (Hinvalid "Bearer x.y"%string). reflexivity.
  - apply (Hnext "Bearer xx"%string). reflexivity.
Defined.


(** * Further properties of the handlers *)

(** ** The ids of the store *)

Lemma well_numbered_initial : well_numbered initial_store.
Proof.
  unfold well_numbered. simpl. split; [lia|]. intros k.
  rewrite lookup_empty. split.
  - split; [intros [? H]; discriminate H|lia].
  - intros acct H. discriminate H.
Qed.

Lemma well_numbered_createAccount st :
  well_numbered st -> well_numbered (createAccount st).1.
Proof.
  intros [H1 Hk]. unfold well_numbered, createAccount. simpl. split; [lia|].
  intros k. destruct (Hk k) as [Hdom Hid].
  destruct (decide (nextAccountId st = k)) as [<-|Hne].
  - rewrite lookup_insert_eq. split.
    + split; [lia|eauto].
    + intros acct [= <-]. reflexivity.
  - rewrite lookup_insert_ne by exact Hne. split; [|exact Hid].
    rewrite Hdom. lia.
Qed.

Lemma well_numbered_set_balance st k acct b :
  accounts st !! k = Some acct ->
  well_numbered st -> well_numbered (set_balance st k acct b).
Proof.
  intros Hacct [H1 Hk]. unfold well_numbered, set_balance. simpl.
  split; [exact H1|].
  intros k'. destruct (Hk k') as [Hdom Hid].
  destruct (decide (k = k')) as [<-|Hne].
  - rewrite lookup_insert_eq. split.
    + split; [intros _; apply Hdom; eauto|eauto].
    + intros acct' [= <-]. simpl. exact (Hid acct Hacct).
  - rewrite lookup_insert_ne by exact Hne. split; assumption.
Qed.

Lemma well_numbered_call st c : well_numbered st -> well_numbered (call st c).1.
Proof.
  intros Hst. destruct c as [|i a u|i a u|i]; simpl.
  - apply well_numbered_createAccount, Hst.
  - destruct (deposit_cases st i a u)
      as [[_ ->]|[(k & acct & _ & _ & _ & ->)|(k & acct & x & _ & Hk & _ & _ & ->)]];
      try exact Hst.
    apply well_numbered_set_balance; assumption.
  - destruct (withdraw_cases st i a u)
      as [[_ ->]|[(k & acct & _ & _ & _ & ->)
                 |[(k & acct & x & _ & _ & _ & _ & _ & ->)
                  |(k & acct & x & _ & Hk & _ & _ & _ & ->)]]];
      try exact Hst.
    apply well_numbered_set_balance; assumption.
  - rewrite getBalance_store. exact Hst.
Qed.

Lemma well_numbered_run cs : forall st, well_numbered st -> well_numbered (run st cs).
Proof.
  induction cs as [|c cs IH]; intros st Hst; simpl; [exact Hst|].
  apply IH, well_numbered_call, Hst.
Qed.

(** After any sequence of calls the accounts of the store are those with
    ids [1] up to the number of accounts created, no more and no fewer (no
    call deletes one), and the record stored under id [k] carries [id = k]. *)
Theorem account_ids_are_the_allocated_ones cs k :
  (is_Some (accounts (run initial_store cs) !! k) <-> 1 <= k <= creations cs)
  /\ (forall acct,
        accounts (run initial_store cs) !! k = Some acct -> id acct = k).
Proof.
  destruct (well_numbered_run cs initial_store well_numbered_initial) as [_ Hk].
  destruct (Hk k) as [Hdom Hid]. split; [|exact Hid].
  rewrite Hdom, run_nextAccountId. simpl. lia.
Qed.

(** In a store reached by any sequence of calls, the id that the next
    creation allocates names no account yet, and the creation leaves every
    account that exists as it is. *)
Theorem creation_overwrites_nothing cs :
  accounts (run initial_store cs) !! nextAccountId (run initial_store cs) = None
  /\ (forall k acct,
        accounts (run initial_store cs) !! k = Some acct ->
        accounts (createAccount (run initial_store cs)).1 !! k = Some acct).
Proof.
  destruct (well_numbered_run cs initial_store well_numbered_initial) as [_ Hk].
  assert (Hfresh : accounts (run initial_store cs)
                     !! nextAccountId (run initial_store cs) = None).
  { destruct (Hk (nextAccountId (run initial_store cs))) as [Hdom _].
    destruct (accounts (run initial_store cs)
                !! nextAccountId (run initial_store cs)) eqn:E; [|reflexivity].
    assert (is_Some (Some a)) as Hs by eauto. apply Hdom in Hs. lia. }
  split; [exact Hfresh|].
  intros k acct Hacct. unfold createAccount. simpl.
  rewrite lookup_insert_ne; [exact Hacct|].
  intros <-. congruence.
Qed.

(** ** Withdrawals at the edges of the number format *)

Lemma Prim2SF_nan : Prim2SF nan = S754_nan.
Proof. reflexivity. Qed.

Lemma is_nan_Prim2SF x : is_nan x = false -> Prim2SF x <> S754_nan.
Proof.
  unfold is_nan. rewrite FloatAxioms.eqb_spec. intros H E. rewrite E in H.
  discriminate H.
Qed.

Lemma SFcompare_defined x y :
  x <> S754_nan -> y <> S754_nan -> exists c, SFcompare x y = Some c.
Proof.
  intros Hx Hy.
  destruct x as [?|?| |? ? ?]; try congruence;
    destruct y as [?|?| |? ? ?]; try congruence; simpl; eauto.
Qed.

(** Away from [NaN], when [b < x] is false then [x <= b]. *)
Lemma not_ltb_leb b x :
  is_nan b = false -> is_nan x = false ->
  PrimFloat.ltb b x = false -> PrimFloat.leb x b = true.
Proof.
  intros Hb Hx. rewrite FloatAxioms.ltb_spec, FloatAxioms.leb_spec.
  unfold SFltb, SFleb. rewrite (SFcompare_swap (Prim2SF b) (Prim2SF x)).
  destruct (SFcompare_defined _ _ (is_nan_Prim2SF b Hb) (is_nan_Prim2SF x Hx))
    as [c ->].
  destruct c; simpl; intros H; try reflexivity; discriminate H.
Qed.

Lemma sub_self b :
  PrimFloat.ltb 0 b = true -> is_finite b = true ->
  PrimFloat.ltb b b = false /\ PrimFloat.sub b b = 0%float.
Proof.
  intros Hpos Hfin.
  destruct (Binary64Facts.positive_finite_inv b (ltb_zero_leb b Hpos) Hfin)
    as (m & e & E).
  split.
  - rewrite FloatAxioms.ltb_spec, E. unfold SFltb. simpl.
    rewrite Z.compare_refl.
    change (Pos.compare_cont Eq m m) with (Pos.compare m m).
    rewrite Pos.compare_refl. reflexivity.
  - apply Prim2SF_inj. rewrite sub_spec, E, Binary64Facts.Prim2SF_zero.
    cbv beta iota zeta delta [SF64sub SFsub cond_Zopp].
    rewrite Z.sub_diag. reflexivity.
Qed.

Lemma nan_absorbs x :
  PrimFloat.ltb nan x = false
  /\ PrimFloat.add nan x = nan /\ PrimFloat.sub nan x = nan.
Proof.
  split; [|split].
  - rewrite FloatAxioms.ltb_spec, Prim2SF_nan. reflexivity.
  - apply Prim2SF_inj. rewrite add_spec, Prim2SF_nan. reflexivity.
  - apply Prim2SF_inj. rewrite sub_spec, Prim2SF_nan. reflexivity.
Qed.

(** A withdrawal that succeeds on a balance and for an amount that are not
    [NaN] took a number greater than zero and no greater than the balance:
    there is no overdraft. *)
Theorem successful_withdrawal_within_balance st id_param k acct amount uuid :
  JS.parseInt id_param = Some k -> accounts st !! k = Some acct ->
  is_nan (balance acct) = false -> is_NaN amount = false ->
  status (withdraw st id_param amount uuid).2 = 200 ->
  exists x,
    amount = JS.Number x
    /\ PrimFloat.ltb 0 x = true
    /\ PrimFloat.leb x (balance acct) = true.
Proof.
  intros Hp Hk Hb Ha Hok.
  rewrite (withdraw_existing _ _ _ _ _ _ Hp Hk) in Hok.
  destruct (amount_rejected amount) eqn:Hrej; [discriminate Hok|].
  destruct (amount_accepted _ Hrej) as (x & -> & Hx). simpl in Hok, Ha.
  destruct (PrimFloat.ltb (balance acct) x) eqn:Hlt; [discriminate Hok|].
  exists x. split; [reflexivity|]. split.
  - rewrite (leb_zero_ltb x Ha) in Hx. apply negb_false_iff, Hx.
  - apply not_ltb_leb; assumption.
Qed.

(** Account 1 holds 50: 20 can be withdrawn. *)
Lemma successful_withdrawal_within_balance_witness :
  exists x,
    JS.Number 20 = JS.Number x
    /\ PrimFloat.ltb 0 x = true /\ PrimFloat.leb x 50 = true.
Proof.
  exact (successful_withdrawal_within_balance
           (run initial_store [CreateAccount; Deposit "1" (JS.Number 50) "t1"])
           "1" 1 {| id := 1; balance := 50 |} (JS.Number 20) "t2"
           eq_refl eq_refl eq_refl eq_refl eq_refl).
Defined.

(** An account that was never credited cannot be debited: on a balance of
    [0] every withdrawal of an amount other than [NaN] fails, with
    InvalidAmount or InsufficientFunds, and the store is unchanged. *)
Theorem empty_account_refuses_withdrawal st id_param k acct amount uuid :
  JS.parseInt id_param = Some k -> accounts st !! k = Some acct ->
  balance acct = 0%float -> is_NaN amount = false ->
  (withdraw st id_param amount uuid).1 = st
  /\ In (failure_of (withdraw st id_param amount uuid).2)
       [Some InvalidAmount; Some InsufficientFunds].
Proof.
  intros Hp Hk Hb Ha.
  rewrite (withdraw_existing _ _ _ _ _ _ Hp Hk), Hb.
  destruct (amount_rejected amount) eqn:Hrej; [split; [reflexivity|simpl; auto]|].
  destruct (amount_accepted _ Hrej) as (x & -> & Hx). simpl in Ha. simpl number_of.
  rewrite (leb_zero_ltb x Ha) in Hx. apply negb_false_iff in Hx. rewrite Hx.
  split; [reflexivity|simpl; auto].
Qed.

(** A fresh account and a request for 10. *)
Lemma empty_account_refuses_withdrawal_witness :
  let st := run initial_store [CreateAccount] in
  (withdraw st "1" (JS.Number 10) "t1").1 = st
  /\ In (failure_of (withdraw st "1" (JS.Number 10) "t1").2)
       [Some InvalidAmount; Some InsufficientFunds].
Proof.
  exact (empty_account_refuses_withdrawal (run initial_store [CreateAccount])
           "1" 1 {| id := 1; balance := 0 |} (JS.Number 10) "t1"
           eq_refl eq_refl eq_refl eq_refl).
Defined.

(** Withdrawing the whole of a positive finite balance succeeds and leaves
    exactly [0], which is what a balance read returns next. *)
Theorem withdraw_whole_balance st id_param k acct uuid :
  JS.parseInt id_param = Some k -> accounts st !! k = Some acct ->
  PrimFloat.ltb 0 (balance acct) = true -> is_finite (balance acct) = true ->
  (withdraw st id_param (JS.Number (balance acct)) uuid).2
    = {| status := 200; body := TransactionIdBody uuid |}
  /\ (getBalance (withdraw st id_param (JS.Number (balance acct)) uuid).1 id_param).2
     = {| status := 200; body := BalanceBody 0 |}.
Proof.
  intros Hp Hk Hpos Hfin.
  destruct (sub_self (balance acct) Hpos Hfin) as [Hlt Hsub].
  rewrite (withdraw_existing _ _ _ _ _ _ Hp Hk).
  unfold amount_rejected. simpl.
  rewrite (ltb_zero_leb _ Hpos), Hlt, Hsub. simpl.
  split; [reflexivity|].
  assert (Hnew : accounts (set_balance st k acct 0) !! k
                 = Some {| id := id acct; balance := 0 |})
    by apply lookup_insert_eq.
  rewrite (getBalance_existing _ _ _ _ Hp Hnew). reflexivity.
Qed.

(** Account 1 holds 50 and 50 is withdrawn. *)
Lemma withdraw_whole_balance_witness :
  let st := run initial_store [CreateAccount; Deposit "1" (JS.Number 50) "t1"] in
  (withdraw st "1" (JS.Number 50) "t2").2
    = {| status := 200; body := TransactionIdBody "t2" |}
  /\ (getBalance (withdraw st "1" (JS.Number 50) "t2").1 "1").2
     = {| status := 200; body := BalanceBody 0 |}.
Proof.
  exact (withdraw_whole_balance
           (run initial_store [CreateAccount; Deposit "1" (JS.Number 50) "t1"])
           "1" 1 {| id := 1; balance := 50 |} "t2"
           eq_refl eq_refl eq_refl eq_refl).
Defined.

(** Once the balance of an account is [NaN] it stays [NaN]: every deposit
    and every withdrawal of an amount that passes the amount check
    succeeds, whatever the amount, and leaves the balance [NaN]; such an
    account never answers InsufficientFunds. *)
Theorem nan_balance_is_absorbing st id_param k acct amount uuid :
  JS.parseInt id_param = Some k -> accounts st !! k = Some acct ->
  balance acct = nan -> amount_rejected amount = false ->
  deposit st id_param amount uuid
    = (set_balance st k acct nan,
       {| status := 200; body := TransactionIdBody uuid |})
  /\ withdraw st id_param amount uuid
     = (set_balance st k acct nan,
        {| status := 200; body := TransactionIdBody uuid |}).
Proof.
  intros Hp Hk Hb Hacc.
  destruct (nan_absorbs (number_of amount)) as (Hlt & Hadd & Hsub).
  rewrite (deposit_existing _ _ _ _ _ _ Hp Hk),
    (withdraw_existing _ _ _ _ _ _ Hp Hk), Hacc, Hb, Hlt, Hadd, Hsub.
  split; reflexivity.
Qed.

(** Account 1 after a deposit and a withdrawal of [Infinity]; 1000000 is
    then withdrawn. *)
Lemma nan_balance_is_absorbing_witness :
  let st := run initial_store
              [CreateAccount;
               Deposit "1" (JS.Number infinity) "t1";
               Withdraw "1" (JS.Number infinity) "t2"] in
  (withdraw st "1" (JS.Number 1000000) "t3").2
    = {| status := 200; body := TransactionIdBody "t3" |}.
Proof.
  pose (st := run initial_store
                [CreateAccount;
                 Deposit "1" (JS.Number infinity) "t1";
                 Withdraw "1" (JS.Number infinity) "t2"]).
  exact (f_equal snd
           (proj2 (nan_balance_is_absorbing st "1" 1 {| id := 1; balance := nan |}
                     (JS.Number 1000000) "t3" eq_refl eq_refl eq_refl eq_refl))).
Defined.

(** ** The id of a path *)

Lemma read_digits_of_uint_acc d : forall acc,
  JS.read_digits (NilEmpty.string_of_uint d) true (Z.pos acc)
  = Some (Z.pos (Pos.of_uint_acc d acc)).
Proof.
  induction d as [|d IH|d IH|d IH|d IH|d IH|d IH|d IH|d IH|d IH|d IH];
    intros acc; [reflexivity|..];
    cbn [NilEmpty.string_of_uint JS.read_digits Pos.of_uint_acc];
    match goal with
    | |- context [JS.digit_of ?c] =>
        let v := eval vm_compute in (JS.digit_of c) in
        change (JS.digit_of c) with v
    end; cbv iota;
    match goal with
    | |- JS.read_digits _ true ?a = _ =>
        match goal with
        | |- _ = Some (Z.pos (Pos.of_uint_acc _ ?p)) =>
            replace a with (Z.pos p)
              by (rewrite ?Pos2Z.inj_add, ?Pos2Z.inj_mul; lia)
        end
    end; apply IH.
Qed.

Lemma read_digits_of_uint d : forall seen,
  JS.read_digits (NilEmpty.string_of_uint d) seen 0
  = match d with
    | Decimal.Nil => if seen then Some 0 else None
    | _ => Some (Z.of_uint d)
    end.
Proof.
  induction d as [|d IH|d IH|d IH|d IH|d IH|d IH|d IH|d IH|d IH|d IH];
    intros seen; [reflexivity|..].
  - cbn [NilEmpty.string_of_uint JS.read_digits].
    change (JS.digit_of "0") with (Some 0). cbv iota.
    change (10 * 0 + 0) with 0. rewrite IH.
    destruct d; reflexivity.
  - exact (read_digits_of_uint_acc d 1).
  - exact (read_digits_of_uint_acc d 2).
  - exact (read_digits_of_uint_acc d 3).
  - exact (read_digits_of_uint_acc d 4).
  - exact (read_digits_of_uint_acc d 5).
  - exact (read_digits_of_uint_acc d 6).
  - exact (read_digits_of_uint_acc d 7).
  - exact (read_digits_of_uint_acc d 8).
  - exact (read_digits_of_uint_acc d 9).
Qed.

Lemma parseInt_of_uint d :
  JS.parseInt (NilZero.string_of_uint d) = Some (Z.of_uint d)
  /\ JS.parseInt (String "-" (NilZero.string_of_uint d)) = Some (- Z.of_uint d).
Proof.
  assert (H : JS.read_digits (NilZero.string_of_uint d) false 0 = Some (Z.of_uint d)).
  { destruct d; try reflexivity;
      exact (read_digits_of_uint _ false). }
  split.
  - rewrite <- H. destruct d; reflexivity.
  - change (JS.parseInt (String "-" (NilZero.string_of_uint d)))
      with (option_map Z.opp (JS.read_digits (NilZero.string_of_uint d) false 0)).
    rewrite H. reflexivity.
Qed.

Lemma parseInt_id_string n : JS.parseInt (id_string n) = Some n.
Proof.
  unfold id_string. rewrite <- (DecimalZ.of_to n) at 2.
  destruct (Z.to_int n) as [d|d]; simpl NilZero.string_of_int; simpl Z.of_int.
  - apply parseInt_of_uint.
  - apply parseInt_of_uint.
Qed.

(** The id that account creation answers, written in decimal in the path
    of the next request, names the account just created: [parseInt] reads
    back every integer from its decimal digits, and a balance read on that
    path answers 200 with balance [0]. *)
Theorem created_account_is_addressable st n :
  JS.parseInt (id_string n) = Some n
  /\ (createAccount st).2
     = {| status := 201; body := AccountIdBody (nextAccountId st) |}
  /\ getBalance (createAccount st).1 (id_string (nextAccountId st))
     = ((createAccount st).1, {| status := 200; body := BalanceBody 0 |}).
Proof.
  split; [apply parseInt_id_string|]. split; [reflexivity|].
  apply (getBalance_existing _ _ (nextAccountId st)
           {| id := nextAccountId st; balance := 0 |}).
  - apply parseInt_id_string.
  - unfold createAccount. simpl. apply lookup_insert_eq.
Qed.

(** *** Characters after the digits *)

Lemma read_digits_trailing d c junk : forall seen acc n,
  JS.digit_of c = None ->
  JS.read_digits d seen acc = Some n ->
  JS.read_digits (d ++ String c junk) seen acc = Some n.
Proof.
  induction d as [|a d IH]; intros seen acc n Hc H; simpl in *.
  - rewrite Hc. exact H.
  - destruct (JS.digit_of a); [apply IH; assumption|exact H].
Qed.

(** Where the skipping of white space stops at a byte [a] that neither is
    white space nor starts some, text put after the string changes
    nothing. *)
Lemma skip_space_stops n : forall s a r t,
  (String.length s <= n)%nat ->
  JS.skip_space s = String a r ->
  JS.space1 a = false -> JS.space_lead a = false ->
  JS.skip_space (s ++ t) = (String a r ++ t)%string.
Proof.
  induction n as [|n IH]; intros s a r t Hlen Hs H1 HL.
  - destruct s; [discriminate Hs|simpl in Hlen; lia].
  - destruct s as [|x r1]; [discriminate Hs|].
    simpl in Hlen. cbn [JS.skip_space] in Hs.
    change (JS.skip_space (String x r1 ++ t))
      with (JS.skip_space (String x (r1 ++ t))).
    cbn [JS.skip_space].
    destruct (JS.space1 x) eqn:Ex; [apply IH; [lia|assumption..]|].
    destruct (JS.space_lead x) eqn:Lx; cbn [negb] in *;
      [|injection Hs as <- <-; reflexivity].
    destruct r1 as [|y r2];
      [injection Hs as <- <-; congruence|].
    simpl in Hlen.
    change (String y r2 ++ t)%string with (String y (r2 ++ t)).
    cbv iota.
    destruct (JS.space2 x y); [apply IH; [lia|assumption..]|].
    destruct r2 as [|z r3];
      [injection Hs as <- <-; congruence|].
    simpl in Hlen.
    change (String z r3 ++ t)%string with (String z (r3 ++ t)).
    cbv iota.
    destruct (JS.space3 x y z); [apply IH; [lia|assumption..]|].
    injection Hs as <- <-. congruence.
Qed.

Lemma digit_not_space a d :
  JS.digit_of a = Some d -> JS.space1 a = false /\ JS.space_lead a = false.
Proof.
  destruct a as [[] [] [] [] [] [] [] []]; intros H;
    try discriminate H; split; reflexivity.
Qed.

Lemma parseInt_trailing s c junk n :
  JS.digit_of c = None ->
  JS.parseInt s = Some n ->
  JS.parseInt (s ++ String c junk) = Some n.
Proof.
  intros Hc H. unfold JS.parseInt in *.
  destruct (JS.skip_space s) as [|a t] eqn:Hs; [discriminate H|].
  assert (Hstop : JS.space1 a = false /\ JS.space_lead a = false).
  { destruct (Ascii.eqb_spec a "-") as [->|Hminus]; [split; reflexivity|].
    destruct (Ascii.eqb_spec a "+") as [->|Hplus]; [split; reflexivity|].
    destruct (JS.digit_of a) as [d|] eqn:Hd; [exact (digit_not_space a d Hd)|].
    exfalso.
    destruct a as [[] [] [] [] [] [] [] []];
      try discriminate Hd; try discriminate H; congruence. }
  destruct Hstop as [H1 HL].
  rewrite (skip_space_stops (String.length s) s a t (String c junk)
             (Nat.le_refl _) Hs H1 HL).
  change (String a t ++ String c junk)%string with (String a (t ++ String c junk)).
  destruct (Ascii.eqb_spec a "-") as [->|Hminus].
  - destruct (JS.read_digits t false 0) as [m|] eqn:E; [|discriminate H].
    rewrite (read_digits_trailing _ _ _ _ _ _ Hc E). exact H.
  - destruct (Ascii.eqb_spec a "+") as [->|Hplus].
    + apply read_digits_trailing; assumption.
    + assert (Hs' : forall u,
                match String a u with
                | String "-" rest => option_map Z.opp (JS.read_digits rest false 0)
                | String "+" rest => JS.read_digits rest false 0
                | w => JS.read_digits w false 0
                end = JS.read_digits (String a u) false 0).
      { intros u.
        destruct a as [[] [] [] [] [] [] [] []]; try reflexivity; congruence. }
      rewrite Hs' in *.
      exact (read_digits_trailing (String a t) c junk false 0 n Hc H).
Qed.

(** [parseInt] stops at the first character that is not a digit: a path
    id followed by such characters (["1abc"], ["1.5"], ["1 "]) names the
    same account, and the three handlers answer as for the id alone. *)
Theorem trailing_characters_ignored st id_param c junk k amount uuid :
  JS.parseInt id_param = Some k -> JS.digit_of c = None ->
  deposit st (id_param ++ String c junk) amount uuid
    = deposit st id_param amount uuid
  /\ withdraw st (id_param ++ String c junk) amount uuid
     = withdraw st id_param amount uuid
  /\ getBalance st (id_param ++ String c junk) = getBalance st id_param.
Proof.
  intros Hp Hc. unfold deposit, withdraw, getBalance.
  rewrite (parseInt_trailing _ _ junk _ Hc Hp), Hp. repeat split; reflexivity.
Qed.

(** The paths ["1"] and ["1abc"] on a store with one account. *)
Lemma trailing_characters_ignored_witness :
  let st := run initial_store [CreateAccount] in
  deposit st "1abc" (JS.Number 5) "t1" = deposit st "1" (JS.Number 5) "t1"
  /\ withdraw st "1abc" (JS.Number 5) "t1" = withdraw st "1" (JS.Number 5) "t1"
  /\ getBalance st "1abc" = getBalance st "1".
Proof.
  exact (trailing_characters_ignored (run initial_store [CreateAccount])
           "1" "a" "bc" 1 (JS.Number 5) "t1" eq_refl eq_refl).
Defined.

(** ** The login route, the header and the server as a whole *)

Lemma strict_eq_string_true v s : JS.strict_eq_string v s = true <-> v = JS.Str s.
Proof.
  destruct v; simpl; try (split; intros H; discriminate H).
  rewrite String.eqb_eq. split; congruence.
Qed.

Lemma bearer_token_second_word scheme token :
  has_space scheme = false -> has_space token = false ->
  bearer_token (scheme ++ String " " token) = Some token
  /\ (forall rest,
        bearer_token (scheme ++ String " " (token ++ String " " rest)) = Some token).
Proof.
  intros Hs Ht. unfold bearer_token. split.
  - rewrite (split_space_word _ _ Hs), (split_space_no_space _ Ht). reflexivity.
  - intros rest.
    rewrite (split_space_word _ _ Hs), (split_space_word _ _ Ht). reflexivity.
Qed.

Section WholeServer.

Variable jwt_sign : Claims -> string -> string -> Z -> string.
Variable jwt_verify : option string -> string -> Z -> option Decoded.

(** The login route answers 200 exactly when the username and the password
    of the body are both the string ["admin"] (a value of another type is
    never equal to it); the token it then returns is the one signed for the
    claims [{ username: "admin", role: "admin" }] with the secret and the
    validity of the configuration; in every other case the answer is 401
    "Invalid credentials". *)
Theorem login_exactly_for_admin username password now :
  (status (login jwt_sign username password now) = 200
   <-> username = JS.Str "admin" /\ password = JS.Str "admin")
  /\ (username = JS.Str "admin" /\ password = JS.Str "admin" ->
      login jwt_sign username password now
      = {| status := 200;
           body := TokenBody (jwt_sign admin_claims jwtSecret tokenExpiry now) |})
  /\ (status (login jwt_sign username password now) <> 200 ->
      login jwt_sign username password now = json_error 401 "Invalid credentials").
Proof.
  unfold login.
  destruct (JS.strict_eq_string username adminUsername) eqn:Hu;
    destruct (JS.strict_eq_string password adminPassword) eqn:Hp; simpl.
  - apply strict_eq_string_true in Hu, Hp. subst.
    split; [split; [intros _; split; reflexivity|reflexivity]|].
    split; [reflexivity|]. intros H. contradiction H. reflexivity.
  - split; [split; [intros H; discriminate H|]|split; [|reflexivity]];
      intros [_ E]; apply strict_eq_string_true in E;
      unfold adminPassword in Hp; congruence.
  - split; [split; [intros H; discriminate H|]|split; [|reflexivity]];
      intros [E _]; apply strict_eq_string_true in E;
      unfold adminUsername in Hu; congruence.
  - split; [split; [intros H; discriminate H|]|split; [|reflexivity]];
      intros [E _]; apply strict_eq_string_true in E;
      unfold adminUsername in Hu; congruence.
Qed.

(** The gate reads nothing but the second word of the header: the scheme
    word is not compared with ["Bearer"], and words after the token are
    dropped.  A header [scheme token] or [scheme token rest] is treated as
    ["Bearer token"], whatever the scheme. *)
Theorem gate_reads_second_word scheme token now :
  has_space scheme = false -> has_space token = false ->
  verifyToken jwt_verify (Some (scheme ++ String " " token)%string) now
    = verifyToken jwt_verify (Some ("Bearer " ++ token)%string) now
  /\ (forall rest,
        verifyToken jwt_verify
          (Some (scheme ++ String " " (token ++ String " " rest))%string) now
        = verifyToken jwt_verify (Some ("Bearer " ++ token)%string) now).
Proof.
  intros Hs Ht.
  destruct (bearer_token_second_word scheme token Hs Ht) as [H1 H2].
  unfold verifyToken.
  rewrite H1, (bearer_token_of _ Ht). split; [reflexivity|].
  intros rest. rewrite H2. reflexivity.
Qed.

(** A request changes the store only if it carries an [Authorization]
    header whose token [jwt.verify] accepts, and is one of the three POST
    routes on accounts; the answer is then 200 or 201.  Login requests,
    balance reads and everything the gate refuses leave the store as it
    was. *)
Theorem store_changes_only_behind_gate st req now uuid :
  (serve jwt_sign jwt_verify st req now uuid).1 <> st ->
  (exists h decoded,
     authorization_of req = Some h
     /\ jwt_verify (bearer_token h) jwtSecret now = Some decoded)
  /\ In (status (serve jwt_sign jwt_verify st req now uuid).2) [200; 201]
  /\ match req with
     | PostAccounts _ | PostDeposit _ _ _ | PostWithdraw _ _ _ => True
     | PostLogin _ _ | GetAccountBalance _ _ => False
     end.
Proof.
  intros Hch.
  destruct req as [u p|auth|auth i a|auth i a|auth i]; simpl in *;
    try (contradiction Hch; reflexivity);
    unfold protected, verifyToken in *;
    destruct auth as [h|]; try (contradiction Hch; reflexivity);
    destruct (jwt_verify (bearer_token h) jwtSecret now) as [d|] eqn:Hv;
    try (contradiction Hch; reflexivity).
  - split; [eauto|]. split; [simpl; auto|exact I].
  - split; [eauto|]. split; [|exact I].
    destruct (deposit_cases st i a uuid)
      as [[_ E]|[(k & acct & _ & _ & _ & E)|(k & acct & x & _ & _ & _ & _ & E)]];
      rewrite E in *; try (contradiction Hch; reflexivity).
    simpl. auto.
  - split; [eauto|]. split; [|exact I].
    destruct (withdraw_cases st i a uuid)
      as [[_ E]|[(k & acct & _ & _ & _ & E)
                |[(k & acct & x & _ & _ & _ & _ & _ & E)
                 |(k & acct & x & _ & _ & _ & _ & _ & E)]]];
      rewrite E in *; try (contradiction Hch; reflexivity).
    simpl. auto.
  - contradiction Hch. apply getBalance_store.
Qed.

Lemma serve_is_a_call st req now uuid :
  (serve jwt_sign jwt_verify st req now uuid).1 = st
  \/ exists c, (serve jwt_sign jwt_verify st req now uuid).1 = (call st c).1.
Proof.
  destruct req as [u p|auth|auth i a|auth i a|auth i]; simpl;
    [left; reflexivity|..];
    unfold protected; destruct (verifyToken jwt_verify auth now);
    try (left; reflexivity); right.
  - exists CreateAccount. reflexivity.
  - exists (Deposit i a uuid). reflexivity.
  - exists (Withdraw i a uuid). reflexivity.
  - exists (GetBalance i). reflexivity.
Qed.

Lemma serve_all_is_a_run arrivals : forall st,
  exists cs, serve_all jwt_sign jwt_verify st arrivals = run st cs.
Proof.
  induction arrivals as [|a rest IH]; intros st; simpl.
  - exists []. reflexivity.
  - destruct (serve_is_a_call st (request a) (clock a) (next_uuid a))
      as [->|[c ->]].
    + apply IH.
    + destruct (IH (call st c).1) as [cs ->]. exists (c :: cs). reflexivity.
Qed.

(** Whatever requests arrive, with whatever headers, bodies and clocks,
    the store of the server keeps its shape: its accounts are numbered
    [1] up to [nextAccountId - 1], each record carries its own key as
    [id], and no balance is negative. *)
Theorem server_keeps_store_sound arrivals :
  well_numbered (serve_all jwt_sign jwt_verify initial_store arrivals)
  /\ balances never_negative (serve_all jwt_sign jwt_verify initial_store arrivals).
Proof.
  destruct (serve_all_is_a_run arrivals initial_store) as [cs ->]. split.
  - apply well_numbered_run, well_numbered_initial.
  - apply run_never_negative, balances_initial.
Qed.

End WholeServer.

(** The header ["Token xx"] over the unary instance. *)
Lemma gate_reads_second_word_witness :
  verifyToken UnaryJwt.verify (Some "Token xx"%string) 10
  = verifyToken UnaryJwt.verify (Some "Bearer xx"%string) 10.
Proof.
  exact (proj1 (gate_reads_second_word UnaryJwt.verify "Token" "xx" 10
                  eq_refl eq_refl)).
Defined.

(** An account creation with a valid token on the initial store. *)
Lemma store_changes_only_behind_gate_witness :
  (exists h decoded,
     Some "Bearer xx"%string = Some h
     /\ UnaryJwt.verify (bearer_token h) jwtSecret 10 = Some decoded)
  /\ In (status (serve UnaryJwt.sign UnaryJwt.verify initial_store
                   (PostAccounts (Some "Bearer xx"%string)) 10 "t1").2)
       [200; 201].
Proof.
  assert (Hch : (serve UnaryJwt.sign UnaryJwt.verify initial_store
                   (PostAccounts (Some "Bearer xx"%string)) 10 "t1").1
                <> initial_store).
  { intros E. apply (f_equal nextAccountId) in E. discriminate E. }
  destruct (store_changes_only_behind_gate UnaryJwt.sign UnaryJwt.verify
              initial_store (PostAccounts (Some "Bearer xx"%string)) 10 "t1" Hch)
    as (Hgate & Hstatus & _).
  split; [exact Hgate|exact Hstatus].
Defined.

(** ** Calls on different accounts *)

Lemma set_balance_commute st k1 a1 b1 k2 a2 b2 :
  k1 <> k2 ->
  set_balance (set_balance st k1 a1 b1) k2 a2 b2
  = set_balance (set_balance st k2 a2 b2) k1 a1 b1.
Proof.
  intros Hne. unfold set_balance. simpl. f_equal.
  apply insert_insert_ne. congruence.
Qed.

(** A call on an account either leaves the store alone or sets the balance
    of its target. *)
Lemma call_effect st c :
  on_account c = true ->
  (call st c).1 = st
  \/ exists k acct b, target c = Some k /\ (call st c).1 = set_balance st k acct b.
Proof.
  destruct c as [|i a u|i a u|i]; simpl; intros Hc; try discriminate Hc.
  - destruct (deposit_cases st i a u)
      as [[_ ->]|[(k & acct & _ & _ & _ & ->)|(k & acct & x & Hp & _ & _ & _ & ->)]];
      [left; reflexivity|left; reflexivity|right; eauto].
  - destruct (withdraw_cases st i a u)
      as [[_ ->]|[(k & acct & _ & _ & _ & ->)
                 |[(k & acct & x & _ & _ & _ & _ & _ & ->)
                  |(k & acct & x & Hp & _ & _ & _ & _ & ->)]]];
      [left; reflexivity|left; reflexivity|left; reflexivity|right; eauto].
  - left. apply getBalance_store.
Qed.

(** A call on an account does not see a balance set under another key, and
    that balance is still set after it. *)
Lemma call_past_set_balance st c k acct b :
  on_account c = true -> target c <> Some k ->
  (call (set_balance st k acct b) c).2 = (call st c).2
  /\ (call (set_balance st k acct b) c).1 = set_balance (call st c).1 k acct b.
Proof.
  intros Hc Ht.
  assert (Hat : forall k', JS.parseInt
                             match c with
                             | Deposit i _ _ | Withdraw i _ _ | GetBalance i => i
                             | CreateAccount => EmptyString
                             end = Some k' ->
                accounts (set_balance st k acct b) !! k' = accounts st !! k').
  { intros k' Hk'. unfold set_balance. simpl. apply lookup_insert_ne.
    intros ->. destruct c; simpl in *; congruence. }
  destruct c as [|i a u|i a u|i]; simpl in *; try discriminate Hc.
  - unfold deposit. destruct (JS.parseInt i) as [k'|] eqn:Hp; simpl;
      [|split; reflexivity].
    rewrite (Hat k' eq_refl).
    destruct (accounts st !! k') as [acct'|]; [|split; reflexivity].
    destruct (amount_rejected a); [split; reflexivity|]. simpl.
    split; [reflexivity|]. apply set_balance_commute. congruence.
  - unfold withdraw. destruct (JS.parseInt i) as [k'|] eqn:Hp; simpl;
      [|split; reflexivity].
    rewrite (Hat k' eq_refl).
    destruct (accounts st !! k') as [acct'|]; [|split; reflexivity].
    destruct (amount_rejected a); [split; reflexivity|].
    destruct (PrimFloat.ltb (balance acct') (number_of a)); [split; reflexivity|].
    simpl. split; [reflexivity|]. apply set_balance_commute. congruence.
  - unfold getBalance. destruct (JS.parseInt i) as [k'|] eqn:Hp; simpl;
      [|split; reflexivity].
    rewrite (Hat k' eq_refl).
    destruct (accounts st !! k') as [acct'|]; split; reflexivity.
Qed.

(** Deposits, withdrawals and balance reads on two different accounts do
    not interfere: made in either order they get the same two answers and
    leave the same store. *)
Theorem calls_on_different_accounts_commute st c1 c2 :
  on_account c1 = true -> on_account c2 = true -> target c1 <> target c2 ->
  (call (call st c1).1 c2).1 = (call (call st c2).1 c1).1
  /\ (call (call st c2).1 c1).2 = (call st c1).2
  /\ (call (call st c1).1 c2).2 = (call st c2).2.
Proof.
  intros H1 H2 Hne.
  destruct (call_effect st c1 H1) as [E1|(k1 & a1 & b1 & T1 & E1)];
    destruct (call_effect st c2 H2) as [E2|(k2 & a2 & b2 & T2 & E2)].
  - repeat progress rewrite ?E1, ?E2. repeat split; reflexivity.
  - destruct (call_past_set_balance st c1 k2 a2 b2 H1) as [R S];
      [congruence|].
    repeat progress rewrite ?E1, ?E2, ?R, ?S. repeat split; reflexivity.
  - destruct (call_past_set_balance st c2 k1 a1 b1 H2) as [R S];
      [congruence|].
    repeat progress rewrite ?E1, ?E2, ?R, ?S. repeat split; reflexivity.
  - destruct (call_past_set_balance st c1 k2 a2 b2 H1) as [R1 S1];
      [congruence|].
    destruct (call_past_set_balance st c2 k1 a1 b1 H2) as [R2 S2];
      [congruence|].
    repeat progress rewrite ?E1, ?E2, ?R1, ?S1, ?R2, ?S2.
    split; [|split; reflexivity].
    apply set_balance_commute. congruence.
Qed.

(** A deposit on account 1 and a withdrawal on account 2. *)
Lemma calls_on_different_accounts_commute_witness :
  let st := run initial_store
              [CreateAccount; CreateAccount; Deposit "2" (JS.Number 7) "t1"] in
  let c1 := Deposit "1" (JS.Number 50) "t2" in
  let c2 := Withdraw "2" (JS.Number 3) "t3" in
  (call (call st c1).1 c2).1 = (call (call st c2).1 c1).1
  /\ (call (call st c2).1 c1).2 = (call st c1).2
  /\ (call (call st c1).1 c2).2 = (call st c2).2.
Proof.
  apply (calls_on_different_accounts_commute
           (run initial_store
              [CreateAccount; CreateAccount; Deposit "2" (JS.Number 7) "t1"])
           (Deposit "1" (JS.Number 50) "t2")
           (Withdraw "2" (JS.Number 3) "t3") eq_refl eq_refl).
  simpl. discriminate.
Defined.
